(** * maxGraph: DOM event helper (mxEvent) and the transactional graph model

    The first part embeds [src/src/mxgraph/util/event/mxEvent.js]: the
    listener bookkeeping kept on DOM nodes, the gesture listeners, the
    redirection of mouse events into the graph, the touch-aware coordinate
    accessors and the consumed marker on events.

    The second part models the transactional graph model and the undo
    history, and replays the two-vertices-and-edge examples of
    [src/unnamed/part_000] and [src/src/pages/editing/Editing.js]. *)

From stdpp Require Import gmap strings list.

Open Scope string_scope.
Open Scope list_scope.

(** ** mxClient feature flags

    [mxClient] is imported by mxEvent.js; only the two flags read by the
    gesture listeners matter here, and they are taken as parameters. *)
Record mxClient := MxClient {
  IS_POINTER : bool;
  IS_TOUCH : bool;
}.

Module mxEvent.

(** *** DOM nodes and their listeners

    A listener function is compared with [===], that is by identity; the
    type [F] of function identities is a parameter with decidable equality.
    A node carries the browser's own registry of listeners (what
    [addEventListener] and [removeEventListener] maintain, all with the
    capture flag false here) and the expando field [mxListenerList], which is
    [null] (or undefined) or an array of [{name, f}] entries. *)
Section Listeners.
Context {F : Type} `{EqDecision F}.

Record Entry := MkEntry {
  name : string;
  f : F;
}.

Record Element := MkElement {
  registered : list (string * F);
  mxListenerList : option (list Entry);
}.

(** [element.addEventListener(eventName, funct, ...)]: a listener that is
    already registered for this event type is not registered twice. *)
Definition addEventListener (eventName : string) (funct : F)
    (reg : list (string * F)) : list (string * F) :=
  if decide ((eventName, funct) ∈ reg) then reg else reg ++ [(eventName, funct)].

(** [element.removeEventListener(eventName, funct, false)]. *)
Definition removeEventListener (eventName : string) (funct : F)
    (reg : list (string * F)) : list (string * F) :=
  filter (λ p, p ≠ (eventName, funct)) reg.

Definition addListener (element : Element) (eventName : string) (funct : F)
    : Element :=
  let reg := addEventListener eventName funct (registered element) in
  let lst := match mxListenerList element with
             | None => []
             | Some l => l
             end in
  let entry := MkEntry eventName funct in
  MkElement reg (Some (lst ++ [entry])).

(** The [for] loop of [removeListener]: [i] is the loop index and [n] the
    number of iterations left ([listenerCount - i]); the first entry whose
    [f] is [funct] is spliced out and the loop is left. *)
Fixpoint removeListener_loop (funct : F) (lst : list Entry) (i n : nat)
    : list Entry :=
  match n with
  | O => lst
  | S n' =>
      match lst !! i with
      | Some entry =>
          if decide (f entry = funct) then delete i lst
          else removeListener_loop funct lst (S i) n'
      | None => lst
      end
  end.

(** What the loop computes, stated on the list: the first entry holding
    [funct] is taken out. *)
Fixpoint splice_first (funct : F) (lst : list Entry) : list Entry :=
  match lst with
  | [] => []
  | entry :: lst' =>
      if decide (f entry = funct) then lst'
      else entry :: splice_first funct lst'
  end.

Definition removeListener (element : Element) (eventName : string) (funct : F)
    : Element :=
  let reg := removeEventListener eventName funct (registered element) in
  match mxListenerList element with
  | Some lst =>
      let listenerCount := length lst in
      let lst' := removeListener_loop funct lst 0 listenerCount in
      if decide (length lst' = 0) then MkElement reg None
      else MkElement reg (Some lst')
  | None => MkElement reg None
  end.

(** In [removeAllListeners] the local [list] (here [lst]) is the very array stored in
    [element.mxListenerList]: [removeListener] splices that array in place
    and only replaces the field by [null] once the array is empty.  So at
    every iteration the contents of [list] are those of the field, or empty
    when the field is [null]. *)
Definition aliased_list (element : Element) : list Entry :=
  match mxListenerList element with
  | Some l => l
  | None => []
  end.

(** The [while (list.length > 0)] loop; [None] when the fuel runs out. *)
Fixpoint removeAllListeners_loop (fuel : nat) (element : Element)
    : option Element :=
  match aliased_list element with
  | [] => Some element
  | entry :: _ =>
      match fuel with
      | O => None
      | S fuel' =>
          removeAllListeners_loop fuel'
            (removeListener element (name entry) (f entry))
      end
  end.

Definition removeAllListeners (element : Element) : option Element :=
  match mxListenerList element with
  | Some lst => removeAllListeners_loop (length lst) element
  | None => Some element
  end.

(** [startListener], [moveListener] and [endListener] may be [null]. *)
Definition addListener_opt (element : Element) (eventName : string)
    (funct : option F) : Element :=
  match funct with
  | Some g => addListener element eventName g
  | None => element
  end.

Definition removeListener_opt (element : Element) (eventName : string)
    (funct : option F) : Element :=
  match funct with
  | Some g => removeListener element eventName g
  | None => element
  end.

Definition addGestureListeners (client : mxClient) (node : Element)
    (startListener moveListener endListener : option F) : Element :=
  let node := addListener_opt node
    (if IS_POINTER client then "pointerdown" else "mousedown") startListener in
  let node := addListener_opt node
    (if IS_POINTER client then "pointermove" else "mousemove") moveListener in
  let node := addListener_opt node
    (if IS_POINTER client then "pointerup" else "mouseup") endListener in
  if negb (IS_POINTER client) && IS_TOUCH client then
    let node := addListener_opt node "touchstart" startListener in
    let node := addListener_opt node "touchmove" moveListener in
    addListener_opt node "touchend" endListener
  else node.

Definition removeGestureListeners (client : mxClient) (node : Element)
    (startListener moveListener endListener : option F) : Element :=
  let node := removeListener_opt node
    (if IS_POINTER client then "pointerdown" else "mousedown") startListener in
  let node := removeListener_opt node
    (if IS_POINTER client then "pointermove" else "mousemove") moveListener in
  let node := removeListener_opt node
    (if IS_POINTER client then "pointerup" else "mouseup") endListener in
  if negb (IS_POINTER client) && IS_TOUCH client then
    let node := removeListener_opt node "touchstart" startListener in
    let node := removeListener_opt node "touchmove" moveListener in
    removeListener_opt node "touchend" endListener
  else node.

(** A call of the listener API, to speak about sequences of calls. *)
Inductive ListenerCall :=
  | CallAddListener (eventName : string) (funct : F)
  | CallRemoveListener (eventName : string) (funct : F)
  | CallRemoveAllListeners.

Definition call (element : Element) (c : ListenerCall) : option Element :=
  match c with
  | CallAddListener n g => Some (addListener element n g)
  | CallRemoveListener n g => Some (removeListener element n g)
  | CallRemoveAllListeners => removeAllListeners element
  end.

Fixpoint calls (element : Element) (cs : list ListenerCall) : option Element :=
  match cs with
  | [] => Some element
  | c :: cs' =>
      match call element c with
      | Some element' => calls element' cs'
      | None => None
      end
  end.

End Listeners.

Arguments Entry : clear implicits.
Arguments Element : clear implicits.
Arguments ListenerCall : clear implicits.

(** *** Events

    The fields of a DOM event that mxEvent.js reads or writes.  The methods
    [preventDefault] and [stopPropagation] are recorded by presence (calling
    a missing method throws) and every invocation is appended to
    [evt_invoked].  Coordinates are carried around unchanged. *)
Record Touch := MkTouch {
  touch_clientX : Z;
  touch_clientY : Z;
}.

Record Event := MkEvent {
  evt_type : string;
  evt_touches : option (list Touch);
  evt_changedTouches : option (list Touch);
  evt_clientX : Z;
  evt_clientY : Z;
  evt_isConsumed : option bool;
  evt_preventDefault : bool;
  evt_stopPropagation : bool;
  evt_cancelBubble : option bool;
  evt_returnValue : option bool;
  evt_invoked : list string;
}.

Definition set_isConsumed (v : option bool) (e : Event) : Event :=
  MkEvent (evt_type e) (evt_touches e) (evt_changedTouches e) (evt_clientX e)
    (evt_clientY e) v (evt_preventDefault e) (evt_stopPropagation e)
    (evt_cancelBubble e) (evt_returnValue e) (evt_invoked e).

Definition set_cancelBubble (v : option bool) (e : Event) : Event :=
  MkEvent (evt_type e) (evt_touches e) (evt_changedTouches e) (evt_clientX e)
    (evt_clientY e) (evt_isConsumed e) (evt_preventDefault e)
    (evt_stopPropagation e) v (evt_returnValue e) (evt_invoked e).

Definition set_returnValue (v : option bool) (e : Event) : Event :=
  MkEvent (evt_type e) (evt_touches e) (evt_changedTouches e) (evt_clientX e)
    (evt_clientY e) (evt_isConsumed e) (evt_preventDefault e)
    (evt_stopPropagation e) (evt_cancelBubble e) v (evt_invoked e).

Definition log_invocation (method : string) (e : Event) : Event :=
  MkEvent (evt_type e) (evt_touches e) (evt_changedTouches e) (evt_clientX e)
    (evt_clientY e) (evt_isConsumed e) (evt_preventDefault e)
    (evt_stopPropagation e) (evt_cancelBubble e) (evt_returnValue e)
    (evt_invoked e ++ [method]).

(** [evt.stopPropagation()]: a TypeError ([None]) when the method is absent. *)
Definition invoke_stopPropagation (e : Event) : option Event :=
  if evt_stopPropagation e then Some (log_invocation "stopPropagation" e)
  else None.

(** [evt.preventDefault()], only reached when the method is present. *)
Definition invoke_preventDefault (e : Event) : Event :=
  log_invocation "preventDefault" e.

Definition isConsumed (evt : Event) : bool :=
  match evt_isConsumed evt with
  | Some b => b
  | None => false
  end.

(** The result of [getMainEvent] is the event itself or one of its touches. *)
Inductive MainEvent :=
  | OfEvent (e : Event)
  | OfTouch (t : Touch).

(** [l != null && l[0] != null] and then [l[0]]. *)
Definition first_touch (l : option (list Touch)) : option Touch :=
  match l with
  | Some (t :: _) => Some t
  | _ => None
  end.

Definition getMainEvent (e : Event) : MainEvent :=
  match (if bool_decide (evt_type e = "touchstart" ∨ evt_type e = "touchmove")
         then first_touch (evt_touches e) else None) with
  | Some t => OfTouch t
  | None =>
      match (if bool_decide (evt_type e = "touchend")
             then first_touch (evt_changedTouches e) else None) with
      | Some t => OfTouch t
      | None => OfEvent e
      end
  end.

Definition getClientX (e : Event) : Z :=
  match getMainEvent e with
  | OfEvent e' => evt_clientX e'
  | OfTouch t => touch_clientX t
  end.

Definition getClientY (e : Event) : Z :=
  match getMainEvent e with
  | OfEvent e' => evt_clientY e'
  | OfTouch t => touch_clientY t
  end.

(** [consume(evt, preventDefault, stopPropagation)]; the two optional
    arguments are [None] when omitted (or [null]). *)
Definition consume (evt : Event) (preventDefault stopPropagation : option bool)
    : option Event :=
  let preventDefault := default true preventDefault in
  let stopPropagation := default true stopPropagation in
  evt1 ← (if preventDefault then
            if evt_preventDefault evt then
              evt' ← (if stopPropagation then invoke_stopPropagation evt
                      else Some evt);
              Some (invoke_preventDefault evt')
            else if stopPropagation then Some (set_cancelBubble (Some true) evt)
            else Some evt
          else Some evt);
  let evt2 := set_isConsumed (Some true) evt1 in
  Some (if negb (evt_preventDefault evt2) then set_returnValue (Some false) evt2
        else evt2).

Definition MOUSE_DOWN : string := "mouseDown".
Definition MOUSE_MOVE : string := "mouseMove".
Definition MOUSE_UP : string := "mouseUp".

(** *** redirectMouseEvents

    User functions (the overrides, a [state] function) and the graph are
    opaque: they are named by a number and a call to one of them is an
    observable effect.  [state_result] gives what a [state] function
    returns. *)
Record CellState := MkCellState {
  cell : option nat;
}.

Inductive StateArg :=
  | StateValue (st : option CellState)
  | StateFunction (fn : nat).

Record RedirectArgs := MkRedirectArgs {
  graph : nat;
  state : StateArg;
  down : option nat;
  move : option nat;
  up : option nat;
  dblClick : option nat;
}.

Inductive ListenerKind := OnDown | OnMove | OnUp | OnDblClick.

(** A function identity: a function of the caller, or one of the four
    closures created by the invocation [site] of [redirectMouseEvents]. *)
Inductive Funct :=
  | UserFunct (fn : nat)
  | RedirectClosure (site : nat) (args : RedirectArgs) (kind : ListenerKind).

Inductive Effect :=
  | Invoke (fn : nat) (evt : Event)
  | FireMouseEvent (g : nat) (evtName : string) (evt : Event)
      (st : option CellState)
  | GraphDblClick (g : nat) (evt : Event) (c : option nat).

Section Redirect.
Variable state_result : nat → Event → option CellState.

(** [getState]: the state and the effects of computing it. *)
Definition getState (args : RedirectArgs) (evt : Event)
    : option CellState * list Effect :=
  match state args with
  | StateFunction fn => (state_result fn evt, [Invoke fn evt])
  | StateValue st => (st, [])
  end.

Definition gesture_listener (override : option nat) (evtName : string)
    (args : RedirectArgs) (evt : Event) : list Effect :=
  match override with
  | Some fn => [Invoke fn evt]
  | None =>
      if negb (isConsumed evt) then
        let '(st, effs) := getState args evt in
        effs ++ [FireMouseEvent (graph args) evtName evt st]
      else []
  end.

Definition dblclick_listener (args : RedirectArgs) (evt : Event)
    : list Effect :=
  match dblClick args with
  | Some fn => [Invoke fn evt]
  | None =>
      if negb (isConsumed evt) then
        let '(tmp, effs) := getState args evt in
        effs ++ [GraphDblClick (graph args) evt
                   (match tmp with Some st => cell st | None => None end)]
      else []
  end.

(** What calling the function [g] with the event [evt] does. *)
Definition run_listener (g : Funct) (evt : Event) : list Effect :=
  match g with
  | UserFunct fn => [Invoke fn evt]
  | RedirectClosure _ args OnDown => gesture_listener (down args) MOUSE_DOWN args evt
  | RedirectClosure _ args OnMove => gesture_listener (move args) MOUSE_MOVE args evt
  | RedirectClosure _ args OnUp => gesture_listener (up args) MOUSE_UP args evt
  | RedirectClosure _ args OnDblClick => dblclick_listener args evt
  end.

End Redirect.

#[global] Instance CellState_eq_dec : EqDecision CellState.
Proof. solve_decision. Defined.
#[global] Instance StateArg_eq_dec : EqDecision StateArg.
Proof. solve_decision. Defined.
#[global] Instance RedirectArgs_eq_dec : EqDecision RedirectArgs.
Proof. solve_decision. Defined.
#[global] Instance ListenerKind_eq_dec : EqDecision ListenerKind.
Proof. solve_decision. Defined.
#[global] Instance Funct_eq_dec : EqDecision Funct.
Proof. solve_decision. Defined.

Definition redirectMouseEvents (client : mxClient) (site : nat)
    (node : Element Funct) (args : RedirectArgs) : Element Funct :=
  let node := addGestureListeners client node
    (Some (RedirectClosure site args OnDown))
    (Some (RedirectClosure site args OnMove))
    (Some (RedirectClosure site args OnUp)) in
  addListener node "dblclick" (RedirectClosure site args OnDblClick).

(** The optional argument that replaces the default behaviour of a listener. *)
Definition override (args : RedirectArgs) (kind : ListenerKind) : option nat :=
  match kind with
  | OnDown => down args
  | OnMove => move args
  | OnUp => up args
  | OnDblClick => dblClick args
  end.

(** The effects that are the default behaviour of the redirection. *)
Definition is_default_behaviour (eff : Effect) : bool :=
  match eff with
  | Invoke _ _ => false
  | FireMouseEvent _ _ _ _ => true
  | GraphDblClick _ _ _ => true
  end.

End mxEvent.

(** ** The transactional graph model

    GraphModel, its change log and the undo history are not among the source
    files; the definitions of this module follow sections 3, 4.1 and 4.2 of
    the specification.  Cells are identity-bearing objects: the store maps
    the identity of every cell object to its attributes and links, whether
    the cell is attached to the tree or not. *)
Module GraphModel.

(** Modelled from the spec: the Geometry class is not among the source
    files; section 3 gives it bounds (x, y, width, height) and, for edges,
    explicit points and a point per terminal. *)
Record Geometry := MkGeometry {
  geo_x : Z;
  geo_y : Z;
  geo_width : Z;
  geo_height : Z;
  geo_points : list (Z * Z);
  geo_sourcePoint : option (Z * Z);
  geo_targetPoint : option (Z * Z);
}.

(** Modelled from the spec: the Cell class is not among the source files;
    the attributes and relationships are those of section 3: a value, an
    optional geometry, a style, the flags, one parent, the ordered list of
    children and, for edges, a source and a target that own nothing. *)
Record Cell := MkCell {
  value : string;
  geometry : option Geometry;
  style : string;
  vertex : bool;
  edge : bool;
  visible : bool;
  collapsed : bool;
  connectable : bool;
  parent : option nat;
  children : list nat;
  source : option nat;
  target : option nat;
}.

Definition set_value (v : string) (c : Cell) : Cell :=
  MkCell v (geometry c) (style c) (vertex c) (edge c) (visible c)
    (collapsed c) (connectable c) (parent c) (children c) (source c) (target c).

Definition set_geometry (g : option Geometry) (c : Cell) : Cell :=
  MkCell (value c) g (style c) (vertex c) (edge c) (visible c)
    (collapsed c) (connectable c) (parent c) (children c) (source c) (target c).

Definition set_style (s : string) (c : Cell) : Cell :=
  MkCell (value c) (geometry c) s (vertex c) (edge c) (visible c)
    (collapsed c) (connectable c) (parent c) (children c) (source c) (target c).

Definition set_visible (b : bool) (c : Cell) : Cell :=
  MkCell (value c) (geometry c) (style c) (vertex c) (edge c) b
    (collapsed c) (connectable c) (parent c) (children c) (source c) (target c).

Definition set_collapsed (b : bool) (c : Cell) : Cell :=
  MkCell (value c) (geometry c) (style c) (vertex c) (edge c) (visible c)
    b (connectable c) (parent c) (children c) (source c) (target c).

Definition set_parent (p : option nat) (c : Cell) : Cell :=
  MkCell (value c) (geometry c) (style c) (vertex c) (edge c) (visible c)
    (collapsed c) (connectable c) p (children c) (source c) (target c).

Definition set_children (l : list nat) (c : Cell) : Cell :=
  MkCell (value c) (geometry c) (style c) (vertex c) (edge c) (visible c)
    (collapsed c) (connectable c) (parent c) l (source c) (target c).

Definition set_source (t : option nat) (c : Cell) : Cell :=
  MkCell (value c) (geometry c) (style c) (vertex c) (edge c) (visible c)
    (collapsed c) (connectable c) (parent c) (children c) t (target c).

Definition set_target (t : option nat) (c : Cell) : Cell :=
  MkCell (value c) (geometry c) (style c) (vertex c) (edge c) (visible c)
    (collapsed c) (connectable c) (parent c) (children c) (source c) t.

(** The terminal at one end of an edge. *)
Definition terminal (isSource : bool) (c : Cell) : option nat :=
  if isSource then source c else target c.

Definition set_terminal (isSource : bool) (t : option nat) (c : Cell) : Cell :=
  if isSource then set_source t c else set_target t c.

(** Modelled from the spec: GraphModel is not among the source files; what
    it owns is the cell objects and the root pointer. *)
Record Data := MkData {
  cells : gmap nat Cell;
  root : option nat;
}.

(** Modelled from the spec: the change classes are not among the source
    files; section 3 lists the entries, each holding the state before and
    after. *)
Inductive ChangeLogEntry :=
  | ChildChange (child : nat) (parentBefore : option nat) (indexBefore : nat)
      (parentAfter : option nat) (indexAfter : nat)
  | TerminalChange (e : nat) (isSource : bool) (old new : option nat)
  | GeometryChange (c : nat) (old new : option Geometry)
  | StyleChange (c : nat) (old new : string)
  | ValueChange (c : nat) (old new : string)
  | VisibleChange (c : nat) (old new : bool)
  | CollapseChange (c : nat) (old new : bool)
  | RootChange (old new : option nat).

(** An UndoableEdit: the entries of one outermost transaction, in the order
    they were issued. *)
Definition UndoableEdit := list ChangeLogEntry.

(** Ordered child lists: insertion at, and removal from, a position. *)
Definition insert_at (i : nat) (c : nat) (l : list nat) : list nat :=
  take i l ++ c :: drop i l.

Definition remove_child_at (i : nat) (c : Cell) : Cell :=
  set_children (delete i (children c)) c.

Definition insert_child_at (i : nat) (child : nat) (c : Cell) : Cell :=
  set_children (insert_at i child (children c)) c.

Definition alter_opt (g : Cell → Cell) (k : option nat) (m : gmap nat Cell)
    : gmap nat Cell :=
  match k with
  | Some k' => alter g k' m
  | None => m
  end.

(** Moving [child] from position [i1] under [p1] to position [i2] under
    [p2]; either parent may be absent. *)
Definition move_child (child : nat) (p1 : option nat) (i1 : nat)
    (p2 : option nat) (i2 : nat) (m : gmap nat Cell) : gmap nat Cell :=
  alter (set_parent p2) child
    (alter_opt (insert_child_at i2 child) p2
       (alter_opt (remove_child_at i1) p1 m)).

(** Modelled from the spec: the change classes are not among the source
    files; re-applying an entry installs its stored "after" state... *)
Definition redo_entry (en : ChangeLogEntry) (d : Data) : Data :=
  match en with
  | ChildChange child pB iB pA iA =>
      MkData (move_child child pB iB pA iA (cells d)) (root d)
  | TerminalChange e isSource _ new =>
      MkData (alter (set_terminal isSource new) e (cells d)) (root d)
  | GeometryChange c _ new => MkData (alter (set_geometry new) c (cells d)) (root d)
  | StyleChange c _ new => MkData (alter (set_style new) c (cells d)) (root d)
  | ValueChange c _ new => MkData (alter (set_value new) c (cells d)) (root d)
  | VisibleChange c _ new => MkData (alter (set_visible new) c (cells d)) (root d)
  | CollapseChange c _ new => MkData (alter (set_collapsed new) c (cells d)) (root d)
  | RootChange _ new => MkData (cells d) new
  end.

(** Modelled from the spec: ... and reverting an entry installs its stored
    "before" state. *)
Definition undo_entry (en : ChangeLogEntry) (d : Data) : Data :=
  match en with
  | ChildChange child pB iB pA iA =>
      MkData (move_child child pA iA pB iB (cells d)) (root d)
  | TerminalChange e isSource old _ =>
      MkData (alter (set_terminal isSource old) e (cells d)) (root d)
  | GeometryChange c old _ => MkData (alter (set_geometry old) c (cells d)) (root d)
  | StyleChange c old _ => MkData (alter (set_style old) c (cells d)) (root d)
  | ValueChange c old _ => MkData (alter (set_value old) c (cells d)) (root d)
  | VisibleChange c old _ => MkData (alter (set_visible old) c (cells d)) (root d)
  | CollapseChange c old _ => MkData (alter (set_collapsed old) c (cells d)) (root d)
  | RootChange old _ => MkData (cells d) old
  end.

(** Modelled from the spec: UndoableEdit is not among the source files; undo
    applies the entries of an edit last-to-first (4.2). *)
Definition undo_entries (es : UndoableEdit) (d : Data) : Data :=
  foldr undo_entry d es.

(** Modelled from the spec: redo re-applies the entries first-to-last. *)
Definition redo_entries (es : UndoableEdit) (d : Data) : Data :=
  foldl (λ d' en, redo_entry en d') d es.

(** The cells an entry touches. *)
Definition touched (en : ChangeLogEntry) : list nat :=
  match en with
  | ChildChange child _ _ _ _ => [child]
  | TerminalChange e _ _ _ => [e]
  | GeometryChange c _ _ | StyleChange c _ _ | ValueChange c _ _
  | VisibleChange c _ _ | CollapseChange c _ _ => [c]
  | RootChange old new => option_list old ++ option_list new
  end.

(** *** Primitive mutations and their validation

    A primitive mutation is validated against the current data, then
    performed, and yields exactly one entry holding the prior and the new
    state; a rejected one changes nothing and yields no entry. *)
Inductive NegativeSizePolicy := Clamp | Reject.

Inductive Primitive :=
  | MoveTo (child : nat) (newParent : option nat) (index : option nat)
  | ConnectTo (e : nat) (isSource : bool) (t : option nat)
  | GeometryTo (c : nat) (g : option Geometry)
  | StyleTo (c : nat) (s : string)
  | ValueTo (c : nat) (v : string)
  | VisibleTo (c : nat) (b : bool)
  | CollapsedTo (c : nat) (b : bool)
  | RootTo (r : option nat).

Definition clamp_geometry (g : Geometry) : Geometry :=
  MkGeometry (geo_x g) (geo_y g) (Z.max 0 (geo_width g))
    (Z.max 0 (geo_height g)) (geo_points g) (geo_sourcePoint g)
    (geo_targetPoint g).

(** A geometry of negative width or height is clamped or rejected. *)
Definition check_geometry (policy : NegativeSizePolicy) (g : option Geometry)
    : option (option Geometry) :=
  match g with
  | None => Some None
  | Some g' =>
      if decide (0 ≤ geo_width g' ∧ 0 ≤ geo_height g')%Z then Some (Some g')
      else match policy with
           | Clamp => Some (Some (clamp_geometry g'))
           | Reject => None
           end
  end.

Fixpoint index_of (c : nat) (l : list nat) : option nat :=
  match l with
  | [] => None
  | a :: l' => if decide (a = c) then Some 0 else S <$> index_of c l'
  end.

(** The cycle check: walking up from [from] through the parents, is [c]
    met?  A walk that does not end within the fuel is a cycle already. *)
Fixpoint reaches (fuel : nat) (m : gmap nat Cell) (from c : nat) : bool :=
  match fuel with
  | O => true
  | S fuel' =>
      if decide (from = c) then true
      else match m !! from ≫= parent with
           | Some p => reaches fuel' m p c
           | None => false
           end
  end.

(** The parent of [c] and the position of [child] in its child list. *)
Definition position_of (m : gmap nat Cell) (child : nat) (c : Cell)
    : option (option nat * nat) :=
  match parent c with
  | Some p =>
      pc ← m !! p;
      i ← index_of child (children pc);
      Some (Some p, i)
  | None => Some (None, 0)
  end.

(** Modelled from the spec: the mutations of GraphModel are not among the
    source files.  Per section 4.1 a primitive mutation is validated (the
    cell exists; the proposed parent is not the cell or one of its
    descendants; a geometry of negative size is clamped or rejected; the
    recorded position is the one the child has in its parent's list), and
    the entry captures the prior and the new state.  [None] is an
    InvalidMutation. *)
Definition entry_for (policy : NegativeSizePolicy) (d : Data) (p : Primitive)
    : option ChangeLogEntry :=
  match p with
  | MoveTo child (Some q) index =>
      c ← cells d !! child;
      qc ← cells d !! q;
      if reaches (S (S (size (cells d)))) (cells d) q child then None
      else
        '(pB, iB) ← position_of (cells d) child c;
        let siblings := if decide (pB = Some q) then delete iB (children qc)
                        else children qc in
        let iA := match index with
                  | Some i => i `min` length siblings
                  | None => length siblings
                  end in
        Some (ChildChange child pB iB (Some q) iA)
  | MoveTo child None _ =>
      c ← cells d !! child;
      '(pB, iB) ← position_of (cells d) child c;
      if decide (pB = None) then None
      else Some (ChildChange child pB iB None 0)
  | ConnectTo e isSource t =>
      c ← cells d !! e;
      Some (TerminalChange e isSource (terminal isSource c) t)
  | GeometryTo c g =>
      cl ← cells d !! c;
      g' ← check_geometry policy g;
      Some (GeometryChange c (geometry cl) g')
  | StyleTo c s => cl ← cells d !! c; Some (StyleChange c (style cl) s)
  | ValueTo c v => cl ← cells d !! c; Some (ValueChange c (value cl) v)
  | VisibleTo c b => cl ← cells d !! c; Some (VisibleChange c (visible cl) b)
  | CollapsedTo c b => cl ← cells d !! c; Some (CollapseChange c (collapsed cl) b)
  | RootTo r => Some (RootChange (root d) r)
  end.

(** Modelled from the spec: primitives are issued one after the other, each
    validated against the data as the previous ones left it and performed by
    applying its entry; a rejected one is not applied and emits no entry.
    The entries come in issuance order. *)
Fixpoint exec_primitives (policy : NegativeSizePolicy) (d : Data)
    (ps : list Primitive) : Data * list ChangeLogEntry :=
  match ps with
  | [] => (d, [])
  | p :: ps' =>
      match entry_for policy d p with
      | Some en =>
          let '(d', es) := exec_primitives policy (redo_entry en d) ps' in
          (d', en :: es)
      | None => exec_primitives policy d ps'
      end
  end.

(** *** The mutation operations *)
Inductive Mutation :=
  | Add (parent : nat) (child : nat) (index : option nat)
  | Remove (c : nat)
  | SetGeometry (c : nat) (g : option Geometry)
  | SetStyle (c : nat) (s : string)
  | SetValue (c : nat) (v : string)
  | SetTerminal (e : nat) (isSource : bool) (t : option nat)
  | SetVisible (c : nat) (b : bool)
  | SetCollapsed (c : nat) (b : bool)
  | SetRoot (r : option nat).

(** The subtree of [c], children before their parent. *)
Fixpoint subtree (fuel : nat) (m : gmap nat Cell) (c : nat) : list nat :=
  match fuel with
  | O => []
  | S fuel' =>
      match m !! c with
      | Some cl => flat_map (subtree fuel' m) (children cl) ++ [c]
      | None => []
      end
  end.

Definition points_into (victims : list nat) (t : option nat) : bool :=
  match t with
  | Some t' => bool_decide (t' ∈ victims)
  | None => false
  end.

(** For every remaining edge with a terminal in the removed subtree, the
    clearing of that terminal. *)
Definition dangling (m : gmap nat Cell) (victims : list nat) : list Primitive :=
  flat_map (λ ec : nat * Cell,
      if bool_decide (ec.1 ∈ victims) then []
      else (if points_into victims (source ec.2) then [ConnectTo ec.1 true None]
            else [])
        ++ (if points_into victims (target ec.2) then [ConnectTo ec.1 false None]
            else []))
    (map_to_list m).

(** Modelled from the spec: the primitive mutations a mutation operation
    issues.  Removing a cell clears the terminals of the remaining edges
    that point into its subtree, each as an entry of its own, and removes
    the cells of the subtree depth-first (4.1). *)
Definition primitives_of (d : Data) (mu : Mutation) : list Primitive :=
  match mu with
  | Add p child index => [MoveTo child (Some p) index]
  | Remove c =>
      let victims := subtree (S (size (cells d))) (cells d) c in
      dangling (cells d) victims ++ map (λ v, MoveTo v None None) victims
  | SetGeometry c g => [GeometryTo c g]
  | SetStyle c s => [StyleTo c s]
  | SetValue c v => [ValueTo c v]
  | SetTerminal e isSource t => [ConnectTo e isSource t]
  | SetVisible c b => [VisibleTo c b]
  | SetCollapsed c b => [CollapsedTo c b]
  | SetRoot r => [RootTo r]
  end.

(** *** Transactions and the undo history *)

(** Modelled from the spec: GraphModel and UndoManager are not among the
    source files.  The state holds the content, the nesting depth of the
    open transactions, the change log of the outermost one, the two bounded
    stacks of the history (most recent edit first) with their maximum size,
    the policy for negative sizes and the CHANGE notifications fired so
    far. *)
Record State := MkState {
  data : Data;
  updateLevel : nat;
  changeLog : list ChangeLogEntry;
  undoStack : list UndoableEdit;
  redoStack : list UndoableEdit;
  maxSize : nat;
  policy : NegativeSizePolicy;
  fired : list UndoableEdit;
}.

(** A new model with the given content and an empty history. *)
Definition initial (d : Data) (size : nat) (pol : NegativeSizePolicy) : State :=
  MkState d 0 [] [] [] size pol [].

(** Modelled from the spec: UndoManager is not among the source files.
    [undoableEditHappened] pushes the edit, trims the undo stack to its
    maximum size by dropping the oldest edits, and clears the redo stack; an
    edit without entries is never pushed (4.2). *)
Definition undoableEditHappened (edit : UndoableEdit) (s : State) : State :=
  match edit with
  | [] => s
  | _ =>
      MkState (data s) (updateLevel s) (changeLog s)
        (take (maxSize s) (edit :: undoStack s)) [] (maxSize s) (policy s)
        (fired s)
  end.

Definition beginUpdate (s : State) : State :=
  MkState (data s) (S (updateLevel s)) (changeLog s) (undoStack s)
    (redoStack s) (maxSize s) (policy s) (fired s).

(** Modelled from the spec: at the outermost end a non-empty log becomes
    one UndoableEdit, pushed to the history, and one CHANGE notification
    carrying the entries. *)
Definition flush (s : State) : State :=
  match changeLog s with
  | [] => s
  | edit =>
      undoableEditHappened edit
        (MkState (data s) (updateLevel s) [] (undoStack s) (redoStack s)
           (maxSize s) (policy s) (fired s ++ [edit]))
  end.

(** Modelled from the spec: only the outermost end flushes; an inner end
    only lowers the nesting depth. *)
Definition endUpdate (s : State) : State :=
  match updateLevel s with
  | O => s
  | S n =>
      let s' := MkState (data s) n (changeLog s) (undoStack s) (redoStack s)
                  (maxSize s) (policy s) (fired s) in
      match n with
      | O => flush s'
      | S _ => s'
      end
  end.

Definition execute (mu : Mutation) (s : State) : State :=
  let '(d', es) := exec_primitives (policy s) (data s)
                     (primitives_of (data s) mu) in
  MkState d' (updateLevel s) (changeLog s ++ es) (undoStack s) (redoStack s)
    (maxSize s) (policy s) (fired s).

(** Modelled from the spec: a mutation is issued in a transaction; the
    model opens one when none is open and closes it right after. *)
Definition mutate (mu : Mutation) (s : State) : State :=
  endUpdate (execute mu (beginUpdate s)).

(** A new cell object, attached to nothing; identities are never reused. *)
Definition new_cell (v : string) (g : option Geometry) (st : string)
    (isVertex isEdge : bool) : Cell :=
  MkCell v g st isVertex isEdge true false true None [] None None.

Definition create (id : nat) (c : Cell) (s : State) : State :=
  match cells (data s) !! id with
  | Some _ => s
  | None =>
      MkState (MkData (<[id := new_cell (value c) (geometry c) (style c)
                                (vertex c) (edge c)]> (cells (data s)))
                 (root (data s)))
        (updateLevel s) (changeLog s) (undoStack s) (redoStack s) (maxSize s)
        (policy s) (fired s)
  end.

(** Modelled from the spec: [undo] pops the most recent edit, reverts its
    entries last-to-first, pushes it onto the redo stack and returns the
    cells touched; on an empty history it does nothing ([None]). *)
Definition undo (s : State) : option (State * list nat) :=
  match undoStack s with
  | [] => None
  | edit :: rest =>
      Some (MkState (undo_entries edit (data s)) (updateLevel s) (changeLog s)
              rest (edit :: redoStack s) (maxSize s) (policy s) (fired s),
            flat_map touched edit)
  end.

(** Modelled from the spec: [redo] is symmetric. *)
Definition redo (s : State) : option (State * list nat) :=
  match redoStack s with
  | [] => None
  | edit :: rest =>
      Some (MkState (redo_entries edit (data s)) (updateLevel s) (changeLog s)
              (edit :: undoStack s) rest (maxSize s) (policy s) (fired s),
            flat_map touched edit)
  end.

(** [undo] repeated until the undo history is empty. *)
Fixpoint undo_until_empty (fuel : nat) (s : State) : State :=
  match fuel with
  | O => s
  | S fuel' =>
      match undo s with
      | Some (s', _) => undo_until_empty fuel' s'
      | None => s
      end
  end.

(** What a client does to the model. *)
Inductive Command :=
  | Begin
  | End_
  | Mutate (mu : Mutation)
  | Create (id : nat) (c : Cell).

Definition step (s : State) (cmd : Command) : State :=
  match cmd with
  | Begin => beginUpdate s
  | End_ => endUpdate s
  | Mutate mu => mutate mu s
  | Create id c => create id c s
  end.

Definition run (s : State) (cmds : list Command) : State :=
  foldl step s cmds.

(** A step commits an edit when it fires a CHANGE notification; the edit
    pushed by such a step makes a full history drop its oldest edit. *)
Definition commits (s : State) (cmd : Command) : bool :=
  negb (bool_decide (length (fired (step s cmd)) = length (fired s))).

Definition history_full (s : State) : bool :=
  bool_decide (maxSize s ≤ length (undoStack s))%nat.

Fixpoint nothing_dropped (s : State) (cmds : list Command) : bool :=
  match cmds with
  | [] => true
  | cmd :: cmds' =>
      negb (commits s cmd && history_full s)
      && nothing_dropped (step s cmd) cmds'
  end.

(** Undoing a whole history, most recent edit first. *)
Definition undo_edits (stack : list UndoableEdit) (d : Data) : Data :=
  foldl (λ d' edit, undo_entries edit d') d stack.

(** What is left to undo in a state: the open change log, then the history. *)
Definition unwound (s : State) : Data :=
  undo_edits (undoStack s) (undo_entries (changeLog s) (data s)).

(** Two contents agree on the cells of [m0]: same root, and the same
    attributes and links for every cell that [m0] holds. *)
Definition agree_on (m0 : gmap nat Cell) (d d' : Data) : Prop :=
  root d = root d' ∧ ∀ j, is_Some (m0 !! j) → cells d !! j = cells d' !! j.

(** The cell tree below [c], to the depth [fuel]: every cell with all its
    attributes and links, and the trees of its children in their order. *)
#[warnings="-register-all"] Inductive Tree :=
  | Node (id : nat) (attributes : Cell) (subtrees : list Tree)
  | Leaf (id : nat).

Fixpoint tree_of (fuel : nat) (m : gmap nat Cell) (c : nat) : Tree :=
  match fuel with
  | O => Leaf c
  | S fuel' =>
      match m !! c with
      | Some cl => Node c cl (map (tree_of fuel' m) (children cl))
      | None => Leaf c
      end
  end.

(** Every child named by a cell of [m] is a cell of [m]. *)
Definition closed (m : gmap nat Cell) : Prop :=
  ∀ c cl k, m !! c = Some cl → k ∈ children cl → is_Some (m !! k).

(** What every reachable state satisfies with respect to the initial
    content [d0]: no entry is pending outside a transaction, no cell object
    disappears, and unwinding the state leads back to [d0]. *)
Definition invariant (d0 : Data) (s : State) : Prop :=
  (updateLevel s = 0%nat → changeLog s = [])
  ∧ (∀ j, is_Some (cells d0 !! j) → is_Some (cells (data s) !! j))
  ∧ agree_on (cells d0) (unwound s) d0.

End GraphModel.

(** ** The graph facade used by the examples

    [new Graph(container)], [getDefaultParent], [batchUpdate], [insertVertex]
    and [insertEdge] are called by the examples but defined outside the
    source files at hand.  They are modelled on top of [GraphModel] from the
    way the examples call them: an options object read by key. *)
Module Graph.
Import GraphModel.

(** The values found in the options objects of the examples. *)
Inductive JSValue :=
  | JSString (s : string)
  | JSNumber (z : Z)
  | JSArray (items : list Z)
  | JSCellRef (id : nat)
  | JSClassRef (className : string).

Record Graph := MkGraph {
  model : State;
  nextId : nat;
}.

(** A call on the graph: it may throw ([None]) and returns a result. *)
Definition Call (A : Type) : Type := Graph → option (Graph * A).

(** Modelled from the spec: the Graph constructor is missing from the source
    files; a new graph has an empty model, that is a root cell and the
    default parent (layer 0) as its only child. *)
Definition new_graph (size : nat) (pol : NegativeSizePolicy) : Graph :=
  let rootCell := MkCell "" None "" false false true false true None [1] None None in
  let layer := MkCell "" None "" false false true false true (Some 0) [] None None in
  MkGraph (initial (MkData (<[1 := layer]> {[0 := rootCell]}) (Some 0)) size pol) 2.

(** Modelled from the spec: [getDefaultParent] is missing from the source
    files; the examples describe it as "normally the first child of the
    root (ie. layer 0)". *)
Definition getDefaultParent (g : Graph) : option nat :=
  r ← root (data (model g));
  c ← cells (data (model g)) !! r;
  head (children c).

Definition on_model (h : State → State) (g : Graph) : Graph :=
  MkGraph (h (model g)) (nextId g).

(** Modelled from the spec: [batchUpdate] is missing from the source files;
    it brackets the given function in one transaction ("adds cells to the
    model in a single step"). *)
Definition batchUpdate {A} (fn : Call A) : Call A :=
  λ g, '(g', a) ← fn (on_model beginUpdate g);
       Some (on_model endUpdate g', a).

Definition cell_of (params : gmap string JSValue) (key : string) : option nat :=
  match params !! key with
  | Some (JSCellRef id) => Some id
  | _ => None
  end.

Definition string_of (params : gmap string JSValue) (key : string) : string :=
  match params !! key with
  | Some (JSString s) => s
  | _ => ""
  end.

(** [params[key][i]]: throws when [params[key]] is undefined. *)
Definition item_of (params : gmap string JSValue) (key : string) (i : nat)
    : option Z :=
  match params !! key with
  | Some (JSArray items) => items !! i
  | _ => None
  end.

(** The identity of the next cell object to be constructed. *)
Definition construct (c : Cell) : Call nat :=
  λ g, Some (MkGraph (create (nextId g) c (model g)) (S (nextId g)), nextId g).

Definition in_transaction (cmds : list Command) (g : Graph) : Graph :=
  on_model (λ s, endUpdate (run (beginUpdate s) cmds)) g.

(** Modelled from the spec: [insertVertex] is missing from the source files.
    It reads [parent], [value], [position], [size] and [style] from its
    options object, constructs a vertex with the geometry
    (position[0], position[1], size[0], size[1]) and adds it to the parent
    in a transaction; [geometryClass] only selects the class of the
    geometry object. *)
Definition insertVertex (params : gmap string JSValue) : Call nat :=
  λ g,
    x ← item_of params "position" 0;
    y ← item_of params "position" 1;
    w ← item_of params "size" 0;
    h ← item_of params "size" 1;
    p ← cell_of params "parent";
    let geo := MkGeometry x y w h [] None None in
    '(g1, v) ← construct (new_cell (string_of params "value") (Some geo)
                            (string_of params "style") true false) g;
    Some (in_transaction [Mutate (Add p v None)] g1, v).

Definition connect (e : nat) (isSource : bool) (t : option nat) : list Command :=
  match t with
  | Some t' => [Mutate (SetTerminal e isSource (Some t'))]
  | None => []
  end.

(** Modelled from the spec: [insertEdge] is missing from the source files.
    It reads [parent], [value], [source], [target] and [style] from its
    options object (the keys of the call in Editing.js), constructs an edge,
    adds it to the parent and connects it to the terminals that are given,
    all in one transaction. *)
Definition insertEdge (params : gmap string JSValue) : Call nat :=
  λ g,
    p ← cell_of params "parent";
    let src := cell_of params "source" in
    let trg := cell_of params "target" in
    let geo := MkGeometry 0 0 0 0 [] None None in
    '(g1, e) ← construct (new_cell (string_of params "value") (Some geo)
                            (string_of params "style") false true) g;
    Some (in_transaction
            (Mutate (Add p e None) :: connect e true src ++ connect e false trg)
            g1, e).

(** The cells inserted by an example. *)
Record Inserted := MkInserted {
  v1 : nat;
  v2 : nat;
  e1 : nat;
}.

(** [src/unnamed/part_000], lines 100 to 124. *)
Definition anchors_story : Call Inserted :=
  λ graph,
    parent ← getDefaultParent graph;
    batchUpdate (λ g,
      '(g, v1) ← insertVertex
        (<["parent" := JSCellRef parent]>
         (<["value" := JSString "Hello,"]>
          (<["position" := JSArray [20; 20]%Z]>
           (<["size" := JSArray [80; 30]%Z]>
            {["geometryClass" := JSClassRef "MyCustomGeometryClass"]})))) g;
      '(g, v2) ← insertVertex
        (<["parent" := JSCellRef parent]>
         (<["value" := JSString "World!"]>
          (<["position" := JSArray [200; 150]%Z]>
           (<["size" := JSArray [80; 30]%Z]>
            {["geometryClass" := JSClassRef "MyCustomGeometryClass"]})))) g;
      '(g, e1) ← insertEdge
        (<["parent" := JSCellRef parent]>
         (<["value" := JSString ""]>
          (<["position" := JSCellRef v1]>
           {["size" := JSCellRef v2]}))) g;
      Some (g, MkInserted v1 v2 e1)) graph.

(** [src/src/pages/editing/Editing.js], lines 253 to 274. *)
Definition dragsource_story : Call Inserted :=
  λ graph,
    parent ← getDefaultParent graph;
    batchUpdate (λ g,
      '(g, v1) ← insertVertex
        (<["parent" := JSCellRef parent]>
         (<["value" := JSString "Hello,"]>
          (<["position" := JSArray [20; 20]%Z]>
           {["size" := JSArray [80; 30]%Z]}))) g;
      '(g, v2) ← insertVertex
        (<["parent" := JSCellRef parent]>
         (<["value" := JSString "World!"]>
          (<["position" := JSArray [200; 150]%Z]>
           {["size" := JSArray [80; 30]%Z]}))) g;
      '(g, e1) ← insertEdge
        (<["parent" := JSCellRef parent]>
         (<["source" := JSCellRef v1]>
          {["target" := JSCellRef v2]})) g;
      Some (g, MkInserted v1 v2 e1)) graph.

(** The box of the cell [c]: (x, y, width, height). *)
Definition bounds_of (g : Graph) (c : nat) : option (Z * Z * Z * Z) :=
  cl ← cells (data (model g)) !! c;
  geo ← geometry cl;
  Some (geo_x geo, geo_y geo, geo_width geo, geo_height geo).

Definition terminal_of (g : Graph) (isSource : bool) (e : nat) : option nat :=
  cl ← cells (data (model g)) !! e;
  terminal isSource cl.

Definition label_of (g : Graph) (c : nat) : option string :=
  value <$> cells (data (model g)) !! c.

(** An empty model holds no vertex and no edge. *)
Definition empty_model (g : Graph) : Prop :=
  ∀ c cl, cells (data (model g)) !! c = Some cl →
          vertex cl = false ∧ edge cl = false.

(** The example run on [g0] inserts the vertex A "Hello," with the box
    [boxA] and the vertex B "World!" with the box [boxB], both in one
    transaction: a single CHANGE notification, whose edit holds the two
    insertions. *)
Definition inserts_two_vertices (story : Call Inserted) (g0 : Graph)
    (boxA boxB : Z * Z * Z * Z) : Prop :=
  ∃ g ins edit,
    story g0 = Some (g, ins)
    ∧ label_of g (v1 ins) = Some "Hello,"
    ∧ label_of g (v2 ins) = Some "World!"
    ∧ bounds_of g (v1 ins) = Some boxA
    ∧ bounds_of g (v2 ins) = Some boxB
    ∧ fired (model g) = [edit]
    ∧ (∃ p i, ChildChange (v1 ins) None 0 (Some p) i ∈ edit)
    ∧ (∃ p i, ChildChange (v2 ins) None 0 (Some p) i ∈ edit).

End Graph.

(** ** Concrete inputs used to exercise the statements below *)
Module Examples.
Import mxEvent GraphModel.

(** A node that recorded the function 7 first for click and then for
    keydown. *)
Definition twice_registered : Element nat :=
  MkElement [("click", 7%nat); ("keydown", 7%nat)]
    (Some [MkEntry "click" 7%nat; MkEntry "keydown" 7%nat]).

Definition fresh_node : Element nat := MkElement [] None.

Definition touch_event : Event :=
  MkEvent "touchmove" (Some [MkTouch 5 7; MkTouch 50 70]) (Some []) 0 0
    None true true None None [].

Definition touchend_event : Event :=
  MkEvent "touchend" (Some []) (Some [MkTouch 11 13]) 0 0
    None true true None None [].

Definition mouse_event : Event :=
  MkEvent "mousedown" None None 3 4 None true true None None [].

Definition consumed_event : Event :=
  MkEvent "mousedown" None None 3 4 (Some true) true true None None [].

Definition no_overrides : RedirectArgs :=
  MkRedirectArgs 0 (StateValue None) None None None None.

Definition override_down : RedirectArgs :=
  MkRedirectArgs 0 (StateValue None) (Some 9%nat) None None None.

(** A root with one layer, and a detached vertex. *)
Definition small_model : Data :=
  MkData
    (<[2%nat := MkCell "v" (Some (MkGeometry 0 0 10 10 [] None None)) ""
                 true false true false true None [] None None]>
     (<[1%nat := MkCell "" None "" false false true false true (Some 0%nat) []
                   None None]>
      {[0%nat := MkCell "" None "" false false true false true None [1%nat]
                   None None]}))
    (Some 0%nat).

Definition small_session : list Command :=
  [ Create 3 (new_cell "e" None "" false true);
    Begin;
    Mutate (Add 1 2 None);
    Mutate (Add 1 3 (Some 0%nat));
    Mutate (SetTerminal 3 true (Some 2%nat));
    Mutate (SetGeometry 2 (Some (MkGeometry 5 5 (-3) 10 [] None None)));
    End_;
    Mutate (SetValue 2 "w");
    Mutate (Remove 2) ].

(** Two transactions on a history that keeps one edit: the layer 1, the
    child of the root, is renamed twice. *)
Definition two_renames : list Command :=
  [ Mutate (SetValue 1 "b"); Mutate (SetValue 1 "c") ].

(** A node without recorded listeners on which the browser holds a click
    listener. *)
Definition unrecorded_click : Element nat :=
  MkElement [("click", 99%nat)] None.

End Examples.

(** ** More of mxEvent.js

    The functions of mxEvent.js that the statements above do not reach:
    [release] on a DOM subtree, the device and button tests, and the
    listener installed by [disableContextMenu]. *)
Module mxEventRest.
Import mxEvent.

Section Dom.
Context {F : Type} `{EqDecision F}.

(** The pairs (event name, function) recorded in [mxListenerList]. *)
Definition recorded (element : Element F) : list (string * F) :=
  (λ entry, (name entry, f entry)) <$> aliased_list element.

(** A DOM node with its [childNodes], which may be [null]. *)
#[warnings="-register-all"] Inductive Node :=
  | MkNode (element : Element F) (childNodes : option (list Node)).

(** [release(element)] for a node that is not [null].  An exception raised
    by [removeAllListeners] is caught and ends the work on this node; the
    recursive calls catch their own. *)
Fixpoint release_node (n : Node) : Node :=
  match n with
  | MkNode element children =>
      match removeAllListeners element with
      | Some element' =>
          MkNode element'
            (match children with
             | Some l => Some (map release_node l)
             | None => None
             end)
      | None => n
      end
  end.

Definition release (element : option Node) : option Node :=
  match element with
  | Some n => Some (release_node n)
  | None => None
  end.

(** The elements of a subtree, the node first, then its descendants in
    document order. *)
Fixpoint elements (n : Node) : list (Element F) :=
  match n with
  | MkNode element children =>
      element :: match children with
                 | Some l => flat_map elements l
                 | None => []
                 end
  end.

(** What [release] leaves of one element: nothing recorded, and registered
    exactly what was registered without being recorded. *)
Definition released (element element' : Element F) : Prop :=
  aliased_list element' = []
  ∧ (mxListenerList element ≠ Some [] → mxListenerList element' = None)
  ∧ ∀ p, p ∈ registered element'
         ↔ p ∈ registered element ∧ p ∉ recorded element.

(** Several [addListener] calls in a row. *)
Definition addListeners (element : Element F) (l : list (string * F))
    : Element F :=
  foldl (λ el p, addListener el p.1 p.2) element l.

End Dom.

Arguments Node : clear implicits.

(** *** The device and the buttons of an event

    The further fields of an event that the tests below read.  A property
    that may be missing is an option; [pointerType] is a name on pointer
    events and a number on the older MSPointer events, whose numbers the
    event carries as [MSPOINTER_TYPE_TOUCH], [_PEN] and [_MOUSE]. *)
Inductive PointerType :=
  | PointerName (s : string)
  | PointerCode (n : Z).

Record InputEvent := MkInputEvent {
  dom : Event;
  pointerType : option PointerType;
  MSPOINTER_TYPE_TOUCH : option Z;
  MSPOINTER_TYPE_PEN : option Z;
  MSPOINTER_TYPE_MOUSE : option Z;
  mozInputSource : option Z;
  buttons : option Z;
  which : option Z;
  button : option Z;
  shiftKey : bool;
  altKey : bool;
  ctrlKey : bool;
  metaKey : bool;
}.

(** [pointerType == 'name']: a number never equals one of the names. *)
Definition is_name (pt : PointerType) (s : string) : bool :=
  match pt with
  | PointerName s' => bool_decide (s' = s)
  | PointerCode _ => false
  end.

(** [pointerType === code], where [code] may be undefined. *)
Definition is_code (pt : PointerType) (code : option Z) : bool :=
  match pt, code with
  | PointerCode n, Some k => bool_decide (n = k)
  | _, _ => false
  end.

(** [s.indexOf(sub)]: the first position of [sub] in [s], or -1. *)
Definition indexOf (s sub : string) : Z :=
  match String.index 0 sub s with
  | Some n => Z.of_nat n
  | None => (-1)%Z
  end.

Definition isTouchEvent (evt : InputEvent) : bool :=
  match pointerType evt with
  | Some pt => is_name pt "touch" || is_code pt (MSPOINTER_TYPE_TOUCH evt)
  | None =>
      match mozInputSource evt with
      | Some src => bool_decide (src = 5%Z)
      | None => bool_decide (indexOf (evt_type (dom evt)) "touch" = 0%Z)
      end
  end.

Definition isPenEvent (evt : InputEvent) : bool :=
  match pointerType evt with
  | Some pt => is_name pt "pen" || is_code pt (MSPOINTER_TYPE_PEN evt)
  | None =>
      match mozInputSource evt with
      | Some src => bool_decide (src = 2%Z)
      | None => bool_decide (indexOf (evt_type (dom evt)) "pen" = 0%Z)
      end
  end.

Definition isMouseEvent (evt : InputEvent) : bool :=
  match pointerType evt with
  | Some pt => is_name pt "mouse" || is_code pt (MSPOINTER_TYPE_MOUSE evt)
  | None =>
      match mozInputSource evt with
      | Some src => bool_decide (src = 1%Z)
      | None => bool_decide (indexOf (evt_type (dom evt)) "mouse" = 0%Z)
      end
  end.

(** The type of an [Event] is a string, so [evt.type != null] holds. *)
Definition isMultiTouchEvent (evt : InputEvent) : bool :=
  bool_decide (indexOf (evt_type (dom evt)) "touch" = 0%Z)
  && match evt_touches (dom evt) with
     | Some l => bool_decide (1 < length l)%nat
     | None => false
     end.

Definition isLeftMouseButton (evt : InputEvent) : bool :=
  match buttons evt with
  | Some b =>
      if bool_decide (evt_type (dom evt) = "mousedown"
                      ∨ evt_type (dom evt) = "mousemove")
      then bool_decide (b = 1%Z)
      else match which evt with
           | Some w => bool_decide (w = 1%Z)
           | None => bool_decide (button evt = Some 1%Z)
           end
  | None =>
      match which evt with
      | Some w => bool_decide (w = 1%Z)
      | None => bool_decide (button evt = Some 1%Z)
      end
  end.

Definition isMiddleMouseButton (evt : InputEvent) : bool :=
  match which evt with
  | Some w => bool_decide (w = 2%Z)
  | None => bool_decide (button evt = Some 4%Z)
  end.

Definition isRightMouseButton (evt : InputEvent) : bool :=
  match which evt with
  | Some w => bool_decide (w = 3%Z)
  | None => bool_decide (button evt = Some 2%Z)
  end.

(** The modifier tests accept [null]. *)
Definition isShiftDown (evt : option InputEvent) : bool :=
  match evt with Some e => shiftKey e | None => false end.

Definition isAltDown (evt : option InputEvent) : bool :=
  match evt with Some e => altKey e | None => false end.

Definition isControlDown (evt : option InputEvent) : bool :=
  match evt with Some e => ctrlKey e | None => false end.

Definition isMetaDown (evt : option InputEvent) : bool :=
  match evt with Some e => metaKey e | None => false end.

(** [mxClient.IS_MAC] is a parameter. *)
Definition isPopupTrigger (IS_MAC : bool) (evt : InputEvent) : bool :=
  isRightMouseButton evt
  || (IS_MAC
      && isControlDown (Some evt)
      && negb (isShiftDown (Some evt))
      && negb (isMetaDown (Some evt))
      && negb (isAltDown (Some evt))).

End mxEventRest.

(** ** mxDefaultKeyHandler

    [src/src/mxgraph/editor/mxDefaultKeyHandler.js].  mxKeyHandler and the
    editor are defined elsewhere: the editor is named by a number, and what
    is done to the key handler is recorded in order. *)
Module mxDefaultKeyHandler.

Inductive HandlerCall :=
  | Construct (graph : nat)
  | ReplaceEscape
  | BindKey (code : Z) (action : string)
  | BindControlKey (code : Z) (action : string)
  | Destroy.

(** An editor and its graph. *)
Record Editor := MkEditor {
  editor_id : nat;
  editor_graph : nat;
}.

(** The two fields of an instance, [handler] holding what its mxKeyHandler
    has received so far. *)
Record Instance := MkInstance {
  editor : option Editor;
  handler : option (list HandlerCall);
}.

Definition constructor (ed : option Editor) : Instance :=
  match ed with
  | Some e => MkInstance (Some e) (Some [Construct (editor_graph e); ReplaceEscape])
  | None => MkInstance None None
  end.

(** [bindAction(code, action, control)]: [control] may be omitted; calling a
    method of the [null] handler throws ([None]). *)
Definition bindAction (this : Instance) (code : Z) (action : string)
    (control : option bool) : option Instance :=
  if default false control then
    calls ← handler this;
    Some (MkInstance (editor this) (Some (calls ++ [BindControlKey code action])))
  else
    calls ← handler this;
    Some (MkInstance (editor this) (Some (calls ++ [BindKey code action]))).

(** [destroy()]: the result and what the key handler, now dropped, had
    received. *)
Definition destroy (this : Instance) : option (Instance * list HandlerCall) :=
  calls ← handler this;
  Some (MkInstance (editor this) None, calls ++ [Destroy]).

(** One binding request and the call it makes on the key handler. *)
Definition binding_call (b : Z * string * option bool) : HandlerCall :=
  if default false b.2 then BindControlKey b.1.1 b.1.2
  else BindKey b.1.1 b.1.2.

(** Several [bindAction] calls in a row. *)
Fixpoint bindActions (this : Instance) (bs : list (Z * string * option bool))
    : option Instance :=
  match bs with
  | [] => Some this
  | b :: bs' =>
      this' ← bindAction this b.1.1 b.1.2 b.2;
      bindActions this' bs'
  end.

End mxDefaultKeyHandler.

(** ** The Editing example

    [src/src/pages/editing/Editing.js], the class MyCustomGraph of the first
    component: a cell's value is a user object with the fields [first] and
    [second], and the field to edit is chosen by the half of the cell that
    was clicked.  mxUtils.convertPoint, the view and the labelChanged of
    mxGraph are outside the source files: the first is a parameter, the
    state of the cell is given, and what labelChanged hands to mxGraph is
    the result.  The arithmetic of JavaScript numbers is kept abstract:
    [minus a b] is [a - b] and [above_half y h] is [y > h / 2]. *)
Module Editing.
Import mxEvent.

Section MyCustomGraph.
Variable number : Type.
Variable convertPoint : Z → Z → number * number.
Variable minus : number → number → number.
Variable above_half : number → number → bool.

(** The part of a cell state that is read: [x], [y] and [height]. *)
Record State := MkState {
  x : number;
  y : number;
  height : number;
}.

(** A trigger event: a DOM event and the expando [fieldname]. *)
Record Trigger := MkTrigger {
  trigger_event : Event;
  fieldname : option string;
}.

Definition __getFieldnameForEvent (state : option State) (evt : option Trigger)
    : string :=
  match evt with
  | Some e =>
      let point := convertPoint (getClientX (trigger_event e))
                     (getClientY (trigger_event e)) in
      match state with
      | Some st =>
          let px := minus point.1 (x st) in
          let py := minus point.2 (y st) in
          if above_half py (height st) then "second" else "first"
      | None => "first"
      end
  | None => "first"
  end.

(** [value[name] || '']. *)
Definition field_or_empty (value : gmap string string) (name : string)
    : string :=
  match value !! name with
  | Some v => v
  | None => ""
  end.

(** [getEditingValue(cell, evt)]: the editing value and the event with its
    [fieldname] set; setting a property of [null] throws ([None]). *)
Definition getEditingValue (value : gmap string string) (state : option State)
    (evt : option Trigger) : option (string * Trigger) :=
  match evt with
  | Some e =>
      let name := __getFieldnameForEvent state evt in
      Some (field_or_empty value name, MkTrigger (trigger_event e) (Some name))
  | None => None
  end.

(** [labelChanged(cell, newValue, trigger)]: the value handed to the
    labelChanged of mxGraph, a clone of the cell's value with one field
    replaced, or [None] when mxGraph is not called. *)
Definition labelChanged (value : gmap string string) (newValue : string)
    (trigger : option Trigger) : option (gmap string string) :=
  match trigger with
  | Some t =>
      match fieldname t with
      | Some name => Some (<[name := newValue]> value)
      | None => None
      end
  | None => None
  end.

End MyCustomGraph.

End Editing.

(** ** More concrete inputs *)
Module MoreExamples.
Import mxEvent mxEventRest Examples.

(** A node with a recorded click listener and a keydown listener that the
    browser knows but mxEvent does not. *)
Definition half_recorded : Element nat :=
  MkElement [("click", 7%nat); ("keydown", 8%nat)]
    (Some [MkEntry "click" 7%nat]).

(** An MSPointer event of a finger. *)
Definition mspointer_event : InputEvent :=
  MkInputEvent mouse_event (Some (PointerCode 2)) (Some 2%Z) (Some 3%Z)
    (Some 4%Z) None None (Some 1%Z) (Some 0%Z) false false false false.

(** A touchmove with two fingers. *)
Definition two_finger_event : InputEvent :=
  MkInputEvent touch_event None None None None None None None None
    false false false false.

(** A mouseup of the left button with the control key down. *)
Definition control_click : InputEvent :=
  MkInputEvent
    (MkEvent "mouseup" None None 3 4 None true true None None [])
    None None None None None (Some 0%Z) (Some 1%Z) (Some 0%Z)
    false false true false.

(** An event of an old browser: no preventDefault, no stopPropagation. *)
Definition legacy_event : Event :=
  MkEvent "mousedown" None None 3 4 None false false None None [].

(** A double click at (3, 4) on a cell whose state starts at the origin and
    is 6 high, with whole numbers for the JavaScript numbers. *)
Definition whole_point (px py : Z) : Z * Z := (px, py).
Definition whole_above_half (py h : Z) : bool := bool_decide (h < 2 * py)%Z.

Definition click_low : Editing.Trigger := Editing.MkTrigger mouse_event None.

Definition low_state : Editing.State Z := Editing.MkState Z 0%Z 0%Z 6%Z.

Definition user_object : gmap string string :=
  <["first" := "First value"]> {["second" := "Second value"]}.

End MoreExamples.

(** * Properties of mxEvent *)
Section ListenerFacts.
Import mxEvent.
Context {F : Type} `{EqDecision F}.
Implicit Types (element node : Element F) (funct : F) (lst : list (Entry F)).

Lemma removeListener_loop_found funct lst pre entry post :
  Forall (λ x, f x ≠ funct) lst → f entry = funct →
  removeListener_loop funct (pre ++ lst ++ entry :: post) (length pre)
    (length (lst ++ entry :: post)) = pre ++ lst ++ post.
Proof.
  intros Hno Hf. revert pre.
  induction Hno as [|a lst Ha _ IH]; intros pre; simpl.
  - rewrite list_lookup_middle by done. rewrite decide_True by done.
    induction pre as [|b pre IHp]; simpl; [done|]. by f_equal.
  - rewrite list_lookup_middle by done. rewrite decide_False by done.
    specialize (IH (pre ++ [a])).
    rewrite length_app, Nat.add_1_r, <- !(assoc_L (++) pre [a]) in IH.
    exact IH.
Qed.

Lemma removeListener_loop_absent funct lst pre :
  Forall (λ x, f x ≠ funct) lst →
  removeListener_loop funct (pre ++ lst) (length pre) (length lst) = pre ++ lst.
Proof.
  intros Hno. revert pre.
  induction Hno as [|a lst Ha _ IH]; intros pre; simpl; [done|].
  rewrite list_lookup_middle by done. rewrite decide_False by done.
  specialize (IH (pre ++ [a])).
  rewrite length_app, Nat.add_1_r, <- !(assoc_L (++) pre [a]) in IH.
  exact IH.
Qed.

Lemma removeListener_loop_splice funct lst pre :
  removeListener_loop funct (pre ++ lst) (length pre) (length lst)
  = pre ++ splice_first funct lst.
Proof.
  revert pre. induction lst as [|a lst IH]; intros pre; simpl; [done|].
  rewrite list_lookup_middle by done. case_decide.
  - induction pre as [|b pre IHp]; simpl; [done|]. by f_equal.
  - specialize (IH (pre ++ [a])).
    rewrite length_app, Nat.add_1_r, <- !(assoc_L (++) pre [a]) in IH.
    exact IH.
Qed.

Lemma mxListenerList_removeListener element eventName funct :
  mxListenerList (removeListener element eventName funct)
  = match mxListenerList element with
    | Some lst =>
        if decide (length (splice_first funct lst) = 0) then None
        else Some (splice_first funct lst)
    | None => None
    end.
Proof.
  unfold removeListener. destruct (mxListenerList element) as [lst|]; [|done].
  pose proof (removeListener_loop_splice funct lst []) as E. simpl in E.
  rewrite E. by case_decide.
Qed.

(** The bookkeeping of [removeListener] when the first entry holding
    [funct] is [entry], whatever the name recorded in [entry]. *)
Lemma removeListener_first element eventName funct pre entry post :
  mxListenerList element = Some (pre ++ entry :: post) →
  Forall (λ x, f x ≠ funct) pre → f entry = funct →
  mxListenerList (removeListener element eventName funct)
  = if decide (length (pre ++ post) = 0) then None else Some (pre ++ post).
Proof.
  intros Hl Hpre Hf. unfold removeListener. rewrite Hl.
  pose proof (removeListener_loop_found funct pre [] entry post Hpre Hf) as E.
  simpl in E. rewrite E. by case_decide.
Qed.

Lemma removeListener_head element entry lst :
  mxListenerList element = Some (entry :: lst) →
  mxListenerList (removeListener element (name entry) (f entry))
  = if decide (length lst = 0) then None else Some lst.
Proof.
  intros Hl.
  apply (removeListener_first element (name entry) (f entry) [] entry lst);
    [done | constructor | done].
Qed.

Lemma registered_removeListener element eventName funct :
  registered (removeListener element eventName funct)
  = removeEventListener eventName funct (registered element).
Proof.
  unfold removeListener. destruct (mxListenerList element); [|done].
  by case_decide.
Qed.

Lemma removeListener_not_empty element eventName funct :
  mxListenerList (removeListener element eventName funct) ≠ Some [].
Proof.
  unfold removeListener. destruct (mxListenerList element) as [lst|]; [|done].
  case_decide as Hlen; simpl; [done|].
  intros [= E]. rewrite E in Hlen. by apply Hlen.
Qed.

Lemma addListener_not_empty element eventName funct :
  mxListenerList (addListener element eventName funct) ≠ Some [].
Proof.
  unfold addListener; simpl. intros [= E].
  by destruct (mxListenerList element) as [[|??]|].
Qed.

(** The [while] loop of [removeAllListeners] ends within [length list]
    iterations and leaves no entry behind. *)
Lemma removeAllListeners_loop_ends fuel element :
  (length (aliased_list element) ≤ fuel)%nat →
  ∃ element', removeAllListeners_loop fuel element = Some element'
    ∧ aliased_list element' = []
    ∧ (mxListenerList element ≠ Some [] → mxListenerList element' = None).
Proof.
  revert element. induction fuel as [|fuel IH]; intros element Hlen.
  - destruct (aliased_list element) as [|entry lst] eqn:E; simpl in Hlen; [|lia].
    exists element. simpl. rewrite E. split; [done|]. split; [done|].
    unfold aliased_list in E. destruct (mxListenerList element); by subst.
  - simpl. destruct (aliased_list element) as [|entry lst] eqn:E.
    + exists element. split; [done|]. split; [done|].
      unfold aliased_list in E. destruct (mxListenerList element); by subst.
    + assert (mxListenerList element = Some (entry :: lst)) as Hl.
      { unfold aliased_list in E. destruct (mxListenerList element); by subst. }
      pose proof (removeListener_head element entry lst Hl) as Hrem.
      destruct (IH (removeListener element (name entry) (f entry)))
        as (element' & Hrun & Hnil & Hnone).
      { unfold aliased_list. rewrite Hrem. simpl in Hlen.
        case_decide; simpl; lia. }
      exists element'. split; [done|]. split; [done|].
      intros _. apply Hnone. apply removeListener_not_empty.
Qed.

Lemma removeAllListeners_ends element :
  ∃ element', removeAllListeners element = Some element'
    ∧ (mxListenerList element ≠ Some [] → mxListenerList element' = None).
Proof.
  unfold removeAllListeners.
  destruct (mxListenerList element) as [lst|] eqn:E.
  - destruct (removeAllListeners_loop_ends (length lst) element)
      as (element' & Hrun & _ & Hnone).
    { unfold aliased_list. by rewrite E. }
    exists element'. split; [done|]. by rewrite E in Hnone.
  - exists element. by rewrite E.
Qed.

(** C8: after any finite sequence of addListener, removeListener and
    removeAllListeners calls on an element whose [mxListenerList] is null or
    a non-empty array, every call returns and the field is again null or a
    non-empty array, never an empty array. *)
Theorem mxListenerList_never_empty element (cs : list (ListenerCall F)) :
  mxListenerList element ≠ Some [] →
  ∃ element', calls element cs = Some element'
    ∧ mxListenerList element' ≠ Some [].
Proof.
  revert element. induction cs as [|c cs IH]; intros element Hinv; simpl.
  - by exists element.
  - destruct c as [n g|n g|]; simpl.
    + apply IH, addListener_not_empty.
    + apply IH, removeListener_not_empty.
    + destruct (removeAllListeners_ends element) as (element' & -> & Hnone).
      apply IH. by rewrite (Hnone Hinv).
Qed.

(** C9: when the first entry of the list holding [funct] was recorded under
    the name [n1] and a later entry holds [funct] under another name [n2],
    removeListener(element, n2, funct) splices out the entry recorded for
    [n1] and keeps the one for [n2], while the browser forgets the listener
    for [n2] and keeps the one for [n1]. *)
Theorem removeListener_ignores_name element n1 n2 funct pre post :
  mxListenerList element = Some (pre ++ MkEntry n1 funct :: post) →
  Forall (λ x, f x ≠ funct) pre →
  n1 ≠ n2 →
  MkEntry n2 funct ∈ post →
  let element' := removeListener element n2 funct in
  mxListenerList element' = Some (pre ++ post)
  ∧ MkEntry n2 funct ∈ (pre ++ post)
  ∧ ((n2, funct) ∉ registered element')
  ∧ ((n1, funct) ∈ registered element → (n1, funct) ∈ registered element').
Proof.
  intros Hl Hpre Hne Hin element'. subst element'.
  rewrite (removeListener_first element n2 funct pre _ post Hl Hpre eq_refl).
  rewrite registered_removeListener. unfold removeEventListener.
  split; [|split; [|split]].
  - rewrite decide_False; [done|].
    apply list_elem_of_split in Hin as (l1 & l2 & ->).
    rewrite !length_app; simpl. lia.
  - apply elem_of_app. by right.
  - rewrite list_elem_of_filter. by intros [? _].
  - intros Hreg. apply list_elem_of_filter. split; [|done].
    intros [= E]. by apply Hne.
Qed.

End ListenerFacts.

Section GestureFacts.
Import mxEvent.
Context {F : Type} `{EqDecision F}.
Implicit Types (node : Element F).

(** The entries that [addGestureListeners] records for three listeners. *)
Lemma addGestureListeners_entries client node (s m e : F) :
  mxListenerList
    (addGestureListeners client node (Some s) (Some m) (Some e))
  = Some (aliased_list node ++
      if IS_POINTER client then
        [MkEntry "pointerdown" s; MkEntry "pointermove" m; MkEntry "pointerup" e]
      else
        [MkEntry "mousedown" s; MkEntry "mousemove" m; MkEntry "mouseup" e]
        ++ (if IS_TOUCH client then
              [MkEntry "touchstart" s; MkEntry "touchmove" m;
               MkEntry "touchend" e]
            else [])).
Proof.
  unfold addGestureListeners, aliased_list.
  destruct client as [[] []], node as [reg [lst|]]; simpl;
    by rewrite <- ?(assoc_L (++)).
Qed.

Lemma removeEventListener_gone (n : string) (g : F) reg :
  (n, g) ∉ removeEventListener n g reg.
Proof. unfold removeEventListener. rewrite list_elem_of_filter. by intros [? _]. Qed.

Lemma removeEventListener_subset (n : string) (g : F) reg p :
  p ∈ removeEventListener n g reg → p ∈ reg.
Proof. unfold removeEventListener. rewrite list_elem_of_filter. by intros [_ ?]. Qed.

Lemma removeListener_gone node (n : string) (g : F) :
  (n, g) ∉ registered (removeListener node n g).
Proof. rewrite registered_removeListener. apply removeEventListener_gone. Qed.

Lemma removeListener_subset node (n : string) (g : F) p :
  p ∈ registered (removeListener node n g) → p ∈ registered node.
Proof. rewrite registered_removeListener. apply removeEventListener_subset. Qed.

(** Decides the comparisons of listener functions met in the goal, once
    the equalities among them are settled in the context. *)
Ltac decide_functions :=
  repeat match goal with
  | |- context [decide (?a = ?b)] =>
      lazymatch type of a with
      | F => destruct (decide (a = b)); try congruence; simpl
      end
  end.

Lemma elem_of_addEventListener (n : string) (g : F) reg p :
  p ∈ addEventListener n g reg ↔ p ∈ reg ∨ p = (n, g).
Proof.
  unfold addEventListener. case_decide as Hin.
  - split; [by left|]. by intros [?| ->].
  - rewrite elem_of_app, list_elem_of_singleton. tauto.
Qed.

Lemma elem_of_registered_addListener node (n : string) (g : F) p :
  p ∈ registered (addListener node n g) ↔ p ∈ registered node ∨ p = (n, g).
Proof. apply elem_of_addEventListener. Qed.

Lemma elem_of_registered_removeListener node (n : string) (g : F) p :
  p ∈ registered (removeListener node n g) ↔ p ∈ registered node ∧ p ≠ (n, g).
Proof.
  rewrite registered_removeListener. unfold removeEventListener.
  rewrite list_elem_of_filter. tauto.
Qed.

(** C6: on a node without recorded listeners, addGestureListeners records
    and registers the three listeners under pointerdown, pointermove and
    pointerup when pointer events are supported, otherwise under mousedown,
    mousemove and mouseup, followed by touchstart, touchmove and touchend
    when touch is supported: the registered listeners are those of the node
    and these.  removeGestureListeners with the same functions then leaves
    the recorded list null and removes exactly the same set: the registered
    listeners are those of the node that are not among these. *)
Theorem gesture_listeners_roundtrip client node (s m e : F) :
  mxListenerList node = None →
  let added := addGestureListeners client node (Some s) (Some m) (Some e) in
  let removed := removeGestureListeners client added (Some s) (Some m) (Some e) in
  let pairs :=
    if IS_POINTER client then
      [("pointerdown", s); ("pointermove", m); ("pointerup", e)]
    else
      [("mousedown", s); ("mousemove", m); ("mouseup", e)]
      ++ (if IS_TOUCH client then
            [("touchstart", s); ("touchmove", m); ("touchend", e)]
          else []) in
  mxListenerList added
  = Some (if IS_POINTER client then
            [MkEntry "pointerdown" s; MkEntry "pointermove" m;
             MkEntry "pointerup" e]
          else
            [MkEntry "mousedown" s; MkEntry "mousemove" m; MkEntry "mouseup" e]
            ++ (if IS_TOUCH client then
                  [MkEntry "touchstart" s; MkEntry "touchmove" m;
                   MkEntry "touchend" e]
                else []))
  ∧ (∀ p, p ∈ registered added ↔ p ∈ registered node ∨ p ∈ pairs)
  ∧ mxListenerList removed = None
  ∧ (∀ p, p ∈ registered removed ↔ p ∈ registered node ∧ p ∉ pairs)
  ∧ ∀ entry, entry ∈ aliased_list added →
             (name entry, f entry) ∉ registered removed.
Proof.
  intros Hnone added removed pairs.
  assert (mxListenerList added
    = Some (if IS_POINTER client then
            [MkEntry "pointerdown" s; MkEntry "pointermove" m;
             MkEntry "pointerup" e]
          else
            [MkEntry "mousedown" s; MkEntry "mousemove" m; MkEntry "mouseup" e]
            ++ (if IS_TOUCH client then
                  [MkEntry "touchstart" s; MkEntry "touchmove" m;
                   MkEntry "touchend" e]
                else []))) as Hadded.
  { subst added. rewrite addGestureListeners_entries.
    unfold aliased_list. by rewrite Hnone. }
  assert (∀ p, p ∈ registered added ↔ p ∈ registered node ∨ p ∈ pairs)
    as Hregistered.
  { intros p. subst added pairs.
    unfold addGestureListeners, addListener_opt.
    destruct client as [[] []]; cbn [IS_POINTER IS_TOUCH negb andb app].
    all: rewrite !elem_of_registered_addListener, !elem_of_cons, elem_of_nil.
    all: tauto. }
  assert (∀ p, p ∈ registered removed ↔ p ∈ registered node ∧ p ∉ pairs)
    as Hremoved.
  { intros p. subst removed.
    assert (p ∈ registered
              (removeGestureListeners client added (Some s) (Some m) (Some e))
            ↔ p ∈ registered added ∧ p ∉ pairs) as ->.
    { subst pairs. generalize added. intros el.
      unfold removeGestureListeners, removeListener_opt.
      destruct client as [[] []]; cbn [IS_POINTER IS_TOUCH negb andb app].
      all: rewrite !elem_of_registered_removeListener, !elem_of_cons,
             elem_of_nil.
      all: tauto. }
    rewrite Hregistered. tauto. }
  clearbody added. split; [done|]. split; [done|]. split; [|split; [done|]].
  - subst removed.
    unfold removeGestureListeners, removeListener_opt.
    destruct (decide (s = m)), (decide (s = e)), (decide (m = e));
      simplify_eq.
    all: destruct client as [[] []]; simpl in *.
    all: rewrite !mxListenerList_removeListener, Hadded; simpl.
    all: by decide_functions.
  - intros entry Hin. unfold aliased_list in Hin. rewrite Hadded in Hin.
    subst removed.
    unfold removeGestureListeners, removeListener_opt.
    destruct client as [[] []]; simpl in *.
    all: repeat (apply elem_of_cons in Hin as [->|Hin]; simpl;
      [ repeat first [ apply removeListener_gone
                     | intros Hreg; apply removeListener_subset in Hreg;
                       revert Hreg ] |]).
    all: by apply elem_of_nil in Hin.
Qed.

End GestureFacts.

Section EventFacts.
Import mxEvent.

(** C2: whatever the optional preventDefault and stopPropagation arguments,
    when consume(evt, preventDefault, stopPropagation) returns, isConsumed
    is true of the event; and consume does return whenever the event has a
    stopPropagation method or lacks preventDefault. *)
Theorem consume_isConsumed evt (preventDefault stopPropagation : option bool) :
  (∀ evt', consume evt preventDefault stopPropagation = Some evt' →
           isConsumed evt' = true)
  ∧ ((evt_preventDefault evt = true → evt_stopPropagation evt = true) →
     ∃ evt', consume evt preventDefault stopPropagation = Some evt').
Proof.
  unfold consume, invoke_stopPropagation, isConsumed.
  destruct preventDefault as [[]|], stopPropagation as [[]|],
    (evt_preventDefault evt) eqn:Hp, (evt_stopPropagation evt) eqn:Hs; simpl.
  all: split;
    [ intros evt' Heq; simplify_eq; simpl; rewrite ?Hp; done
    | intros Himp; try (by eexists); by specialize (Himp eq_refl) ].
Qed.

(** C10: consume(evt, false, s) returns for every s, invokes no method of
    the event (so never stopPropagation), leaves cancelBubble alone and
    still sets isConsumed to true. *)
Theorem consume_without_preventDefault evt (s : option bool) :
  ∃ evt', consume evt (Some false) s = Some evt'
    ∧ evt_invoked evt' = evt_invoked evt
    ∧ evt_cancelBubble evt' = evt_cancelBubble evt
    ∧ evt_isConsumed evt' = Some true.
Proof.
  unfold consume; simpl. eexists. split; [done|].
  by destruct (evt_preventDefault evt).
Qed.

(** C7: for a touchstart or touchmove event with a non-empty touches list,
    getClientX and getClientY give the coordinates of touches[0]; for a
    touchend event with a non-empty changedTouches list, those of
    changedTouches[0]; for every other event, the event's own clientX and
    clientY. *)
Theorem getClient_of_main_event e :
  (∀ t ts, evt_type e = "touchstart" ∨ evt_type e = "touchmove" →
           evt_touches e = Some (t :: ts) →
           getClientX e = touch_clientX t ∧ getClientY e = touch_clientY t)
  ∧ (∀ t ts, evt_type e = "touchend" →
             evt_changedTouches e = Some (t :: ts) →
             getClientX e = touch_clientX t ∧ getClientY e = touch_clientY t)
  ∧ (¬ ((evt_type e = "touchstart" ∨ evt_type e = "touchmove")
        ∧ ∃ t ts, evt_touches e = Some (t :: ts)) →
     ¬ (evt_type e = "touchend"
        ∧ ∃ t ts, evt_changedTouches e = Some (t :: ts)) →
     getClientX e = evt_clientX e ∧ getClientY e = evt_clientY e).
Proof.
  unfold getClientX, getClientY, getMainEvent.
  split; [|split].
  - intros t ts Hty Hto. rewrite bool_decide_eq_true_2 by done.
    by rewrite Hto.
  - intros t ts Hty Hch.
    rewrite bool_decide_eq_false_2 by (rewrite Hty; intros [?|?]; done).
    rewrite bool_decide_eq_true_2 by done. by rewrite Hch.
  - intros Hno1 Hno2.
    case_bool_decide as H1.
    + destruct (evt_touches e) as [[|t ts]|] eqn:Hto; simpl.
      2: { exfalso. apply Hno1. split; [done|]. by exists t, ts. }
      all: case_bool_decide as H2; [|done].
      all: destruct (evt_changedTouches e) as [[|t' ts']|] eqn:Hch; simpl;
        try done.
      all: exfalso; apply Hno2; split; [done|]; by exists t', ts'.
    + case_bool_decide as H2; [|done].
      destruct (evt_changedTouches e) as [[|t' ts']|] eqn:Hch; simpl;
        try done.
      exfalso; apply Hno2; split; [done|]; by exists t', ts'.
Qed.

(** C3: the listeners installed by redirectMouseEvents are the closures for
    mouse down, move, up and double click; on a consumed event a closure
    without override performs neither graph.fireMouseEvent nor
    graph.dblClick, and a closure with an override calls the override,
    whether the event is consumed or not. *)
Theorem redirectMouseEvents_consumed client site node args
    (state_result : nat → Event → option CellState) evt :
  mxListenerList (redirectMouseEvents client site node args)
  = Some (aliased_list node ++
      map (λ r, MkEntry r.1 (RedirectClosure site args r.2))
        ((if IS_POINTER client then
            [("pointerdown", OnDown); ("pointermove", OnMove);
             ("pointerup", OnUp)]
          else
            [("mousedown", OnDown); ("mousemove", OnMove); ("mouseup", OnUp)]
            ++ (if IS_TOUCH client then
                  [("touchstart", OnDown); ("touchmove", OnMove);
                   ("touchend", OnUp)]
                else []))
         ++ [("dblclick", OnDblClick)]))
  ∧ (∀ kind, override args kind = None → isConsumed evt = true →
       Forall (λ eff, is_default_behaviour eff = false)
         (run_listener state_result (RedirectClosure site args kind) evt))
  ∧ (∀ kind fn, override args kind = Some fn →
       run_listener state_result (RedirectClosure site args kind) evt
       = [Invoke fn evt]).
Proof.
  split; [|split].
  - unfold redirectMouseEvents, addListener at 1; simpl.
    rewrite addGestureListeners_entries. f_equal.
    destruct client as [[] []]; simpl; by rewrite <- ?(assoc_L (++)).
  - intros kind Hov Hcons.
    destruct kind; simpl in *;
      unfold gesture_listener, dblclick_listener; rewrite Hov, Hcons;
      constructor.
  - intros kind fn Hov.
    destruct kind; simpl in *;
      unfold gesture_listener, dblclick_listener; by rewrite Hov.
Qed.

End EventFacts.

(** * Properties of the transactional model *)
Section ModelFacts.
Import GraphModel.
Implicit Types (m : gmap nat Cell) (d : Data) (en : ChangeLogEntry)
  (es : UndoableEdit) (st : State).
Local Arguments reaches : simpl never.
Local Arguments subtree : simpl never.
Local Arguments position_of : simpl never.

Lemma delete_insert_at (i c : nat) (l : list nat) :
  (i ≤ length l)%nat → delete i (insert_at i c l) = l.
Proof.
  unfold insert_at. revert i.
  induction l as [|a l IH]; intros [|i] Hi; simpl in *; try done; try lia.
  f_equal. apply IH. lia.
Qed.

Lemma insert_at_delete (i c : nat) (l : list nat) :
  l !! i = Some c → insert_at i c (delete i l) = l.
Proof.
  unfold insert_at. revert i.
  induction l as [|a l IH]; intros [|i] Hi; simpl in *; try done.
  - by simplify_eq.
  - f_equal. by apply IH.
Qed.

Lemma index_of_lookup (c : nat) (l : list nat) i :
  index_of c l = Some i → l !! i = Some c.
Proof.
  revert i. induction l as [|a l IH]; intros i; simpl; [done|].
  case_decide as Ha.
  - intros [= <-]. by subst.
  - destruct (index_of c l) as [j|]; simpl; [|done].
    intros [= <-]. by apply IH.
Qed.

Lemma lookup_alter_opt (g : Cell → Cell) (k : option nat) m (j : nat) :
  alter_opt g k m !! j
  = (if decide (k = Some j) then g else id) <$> m !! j.
Proof.
  destruct k as [k'|]; simpl.
  - rewrite lookup_alter. repeat case_decide; simplify_eq; try done.
    by destruct (m !! j).
  - by destruct (m !! j).
Qed.

Lemma lookup_move_child child p1 i1 p2 i2 m (k : nat) :
  move_child child p1 i1 p2 i2 m !! k
  = (λ cl, (if decide (child = k) then set_parent p2 else id)
             ((if decide (p2 = Some k) then insert_child_at i2 child else id)
                ((if decide (p1 = Some k) then remove_child_at i1 else id) cl)))
    <$> m !! k.
Proof.
  unfold move_child. rewrite lookup_alter.
  case_decide; simplify_eq; rewrite !lookup_alter_opt;
    by destruct (m !! k).
Qed.

(** What moving a child there and back does to one cell [cl], stored under
    the key [k]; the three comparisons of keys are abstracted. *)
Lemma move_cell_back child (k : nat) pB iB pA iA cl
    (D1 : Decision (child = k)) (D2 : Decision (pA = Some k))
    (D3 : Decision (pB = Some k)) :
  (child = k → parent cl = pB) →
  (pB = Some k → children cl !! iB = Some child) →
  (pA = Some k →
   (iA ≤ length (if D3 then delete iB (children cl) else children cl))%nat) →
  (if D1 then set_parent pB else id)
    ((if D3 then insert_child_at iB child else id)
       ((if D2 then remove_child_at iA else id)
          ((if D1 then set_parent pA else id)
             ((if D2 then insert_child_at iA child else id)
                ((if D3 then remove_child_at iB else id) cl))))) = cl.
Proof.
  destruct cl as [v g s vx ed vi co cn par ch src trg].
  destruct D1, D2, D3;
    cbv [set_parent insert_child_at remove_child_at set_children id
         value geometry style vertex edge visible collapsed connectable
         parent children source target];
    intros Hself HB HA; f_equal;
    rewrite ?delete_insert_at; auto using insert_at_delete, eq_sym.
Qed.

(** Moving a child back: the inverse of a move that was recorded with the
    position the child had. *)
Lemma move_child_back child pB iB pA iA m c :
  m !! child = Some c →
  parent c = pB →
  (∀ p, pB = Some p →
        ∃ pc, m !! p = Some pc ∧ children pc !! iB = Some child) →
  (∀ q, pA = Some q →
        ∃ qc, m !! q = Some qc
          ∧ (iA ≤ length (if decide (pB = Some q) then delete iB (children qc)
                          else children qc))%nat) →
  move_child child pA iA pB iB (move_child child pB iB pA iA m) = m.
Proof.
  intros Hc Hpar HB HA. apply map_eq; intros k.
  rewrite !lookup_move_child.
  destruct (m !! k) as [cl|] eqn:Hk; simpl; [|done]. f_equal.
  apply move_cell_back.
  - intros ->. by simplify_eq.
  - intros E. destruct (HB k E) as (pc & ? & ?). by simplify_eq.
  - intros E. destruct (HA k E) as (qc & ? & ?). by simplify_eq.
Qed.

Lemma alter_alter_back (g h : Cell → Cell) (c : nat) m cl :
  m !! c = Some cl → g (h cl) = cl → alter g c (alter h c m) = m.
Proof.
  intros Hc Hgh. rewrite alter_alter_eq. apply alter_id.
  intros x Hx. simpl. by simplify_eq.
Qed.

(** Every accepted primitive is reverted exactly by undoing its entry. *)
Lemma entry_for_undo pol d p en :
  entry_for pol d p = Some en → undo_entry en (redo_entry en d) = d.
Proof.
  destruct d as [m r]. destruct p as [child [q|] index| e isSource t
    | c g | c s | c v | c b | c b | r']; simpl; intros Hen.
  - destruct (m !! child) as [cl|] eqn:Hc; simpl in Hen; [|done].
    destruct (m !! q) as [qc|] eqn:Hq; simpl in Hen; [|done].
    destruct (reaches _ _ _ _); [done|]. simpl in Hen.
    destruct (position_of m child cl) as [[pB iB]|] eqn:Hpos;
      simpl in Hen; [|done].
    injection Hen as <-. simpl. f_equal.
    apply (move_child_back _ _ _ _ _ _ cl); [done| | |].
    + unfold position_of in Hpos. destruct (parent cl) as [p|]; [|congruence].
      destruct (m !! p) as [pc|]; simpl in Hpos; [|done].
      destruct (index_of child (children pc)); simpl in Hpos; [|done].
      congruence.
    + intros p ->. unfold position_of in Hpos.
      destruct (parent cl) as [p'|]; [|done].
      destruct (m !! p') as [pc|] eqn:Hp; simpl in Hpos; [|done].
      destruct (index_of child (children pc)) as [i|] eqn:Hi;
        simpl in Hpos; [|done].
      simplify_eq. exists pc. split; [done|]. by apply index_of_lookup.
    + intros q' [= <-]. exists qc. split; [done|].
      destruct index; lia.
  - destruct (m !! child) as [cl|] eqn:Hc; simpl in Hen; [|done].
    destruct (position_of m child cl) as [[pB iB]|] eqn:Hpos;
      simpl in Hen; [|done].
    case_decide; [done|]. injection Hen as <-. simpl. f_equal.
    apply (move_child_back _ _ _ _ _ _ cl); [done| | |].
    + unfold position_of in Hpos. destruct (parent cl) as [p|]; [|congruence].
      destruct (m !! p) as [pc|]; simpl in Hpos; [|done].
      destruct (index_of child (children pc)); simpl in Hpos; [|done].
      congruence.
    + intros p ->. unfold position_of in Hpos.
      destruct (parent cl) as [p'|]; [|done].
      destruct (m !! p') as [pc|] eqn:Hp; simpl in Hpos; [|done].
      destruct (index_of child (children pc)) as [i|] eqn:Hi;
        simpl in Hpos; [|done].
      simplify_eq. exists pc. split; [done|]. by apply index_of_lookup.
    + intros q' [=].
  - destruct (m !! e) as [cl|] eqn:Hc; simpl in Hen; [|done].
    injection Hen as <-. simpl. f_equal.
    apply (alter_alter_back _ _ _ _ cl); [done|].
    by destruct cl, isSource.
  - destruct (m !! c) as [cl|] eqn:Hc; simpl in Hen; [|done].
    destruct (check_geometry pol g) as [g'|]; simpl in Hen; [|done].
    injection Hen as <-. simpl. f_equal.
    apply (alter_alter_back _ _ _ _ cl); [done|]. by destruct cl.
  - destruct (m !! c) as [cl|] eqn:Hc; simpl in Hen; [|done].
    injection Hen as <-. simpl. f_equal.
    apply (alter_alter_back _ _ _ _ cl); [done|]. by destruct cl.
  - destruct (m !! c) as [cl|] eqn:Hc; simpl in Hen; [|done].
    injection Hen as <-. simpl. f_equal.
    apply (alter_alter_back _ _ _ _ cl); [done|]. by destruct cl.
  - destruct (m !! c) as [cl|] eqn:Hc; simpl in Hen; [|done].
    injection Hen as <-. simpl. f_equal.
    apply (alter_alter_back _ _ _ _ cl); [done|]. by destruct cl.
  - destruct (m !! c) as [cl|] eqn:Hc; simpl in Hen; [|done].
    injection Hen as <-. simpl. f_equal.
    apply (alter_alter_back _ _ _ _ cl); [done|]. by destruct cl.
  - by injection Hen as <-.
Qed.

Lemma exec_primitives_undo pol ps d d' es :
  exec_primitives pol d ps = (d', es) → undo_entries es d' = d.
Proof.
  revert d d' es. induction ps as [|p ps IH]; intros d d' es; simpl.
  - by intros [= <- <-].
  - destruct (entry_for pol d p) as [en|] eqn:Hen; [|by apply IH].
    destruct (exec_primitives pol (redo_entry en d) ps) as [d1 es1] eqn:Hex.
    intros [= <- <-]. simpl. rewrite (IH _ _ _ Hex).
    by apply (entry_for_undo pol d p).
Qed.

Lemma agree_on_trans m d1 d2 d3 :
  agree_on m d1 d2 → agree_on m d2 d3 → agree_on m d1 d3.
Proof.
  intros [Hr1 Hc1] [Hr2 Hc2]. split; [congruence|].
  intros j Hj. by rewrite Hc1, Hc2.
Qed.

(** Undoing an entry acts on each cell by itself. *)
Lemma undo_entry_pointwise en d d' (j : nat) :
  cells d !! j = cells d' !! j →
  cells (undo_entry en d) !! j = cells (undo_entry en d') !! j.
Proof.
  intros Hj. destruct en; simpl; try done;
    rewrite ?lookup_move_child, ?lookup_alter; try (by rewrite Hj);
    case_decide; simplify_eq; by rewrite ?Hj.
Qed.

Lemma agree_on_undo_entry m en d d' :
  agree_on m d d' → agree_on m (undo_entry en d) (undo_entry en d').
Proof.
  intros [Hr Hc]. split.
  - by destruct en; simpl.
  - intros j Hj. by apply undo_entry_pointwise, Hc.
Qed.

Lemma agree_on_undo_entries m es d d' :
  agree_on m d d' → agree_on m (undo_entries es d) (undo_entries es d').
Proof.
  intros Hag. induction es as [|en es IH]; simpl; [done|].
  by apply agree_on_undo_entry.
Qed.

Lemma agree_on_undo_edits m (stack : list UndoableEdit) d d' :
  agree_on m d d' → agree_on m (undo_edits stack d) (undo_edits stack d').
Proof.
  revert d d'. induction stack as [|edit stack IH]; intros d d' Hag; simpl;
    [done|].
  by apply IH, agree_on_undo_entries.
Qed.

Lemma redo_entry_keeps en d (j : nat) :
  is_Some (cells d !! j) → is_Some (cells (redo_entry en d) !! j).
Proof.
  destruct en; simpl; try done;
    rewrite ?lookup_move_child, ?lookup_alter_is_Some; try done.
  intros [cl ->]. by eexists.
Qed.

Lemma exec_primitives_keeps pol ps d d' es (j : nat) :
  exec_primitives pol d ps = (d', es) →
  is_Some (cells d !! j) → is_Some (cells d' !! j).
Proof.
  revert d d' es. induction ps as [|p ps IH]; intros d d' es; simpl.
  - by intros [= <- <-].
  - destruct (entry_for pol d p) as [en|]; [|by apply IH].
    destruct (exec_primitives pol (redo_entry en d) ps) as [d1 es1] eqn:Hex.
    intros [= <- <-] Hj. eapply IH; [done|]. by apply redo_entry_keeps.
Qed.

Lemma undo_entries_app es1 es2 d :
  undo_entries (es1 ++ es2) d = undo_entries es1 (undo_entries es2 d).
Proof. apply foldr_app. Qed.

Lemma initial_invariant d0 size pol : invariant d0 (initial d0 size pol).
Proof. by repeat split. Qed.

Lemma no_drop_condition st cmd :
  negb (commits st cmd && history_full st) = true →
  length (fired (step st cmd)) ≠ length (fired st) →
  (length (undoStack st) < maxSize st)%nat.
Proof.
  unfold commits, history_full.
  repeat case_bool_decide; simpl; try done; lia.
Qed.

Lemma endUpdate_invariant d0 st :
  invariant d0 st →
  (length (fired (endUpdate st)) ≠ length (fired st) →
   (length (undoStack st) < maxSize st)%nat) →
  invariant d0 (endUpdate st).
Proof.
  destruct st as [d lvl log stack rstack max pol fi].
  unfold endUpdate, invariant, unwound; simpl.
  destruct lvl as [|[|n]]; [done| |]; intros (H1 & H2 & H3) Hfull.
  - unfold flush; simpl. destruct log as [|en log]; simpl in *; [done|].
    rewrite take_ge.
    2:{ simpl. apply Hfull. rewrite length_app; simpl. lia. }
    done.
  - done.
Qed.

Lemma execute_invariant d0 mu st :
  invariant d0 st →
  invariant d0 (execute mu (beginUpdate st))
  ∧ fired (execute mu (beginUpdate st)) = fired st
  ∧ undoStack (execute mu (beginUpdate st)) = undoStack st
  ∧ maxSize (execute mu (beginUpdate st)) = maxSize st.
Proof.
  destruct st as [d lvl log stack rstack max pol fi].
  unfold execute, beginUpdate, invariant, unwound; simpl.
  destruct (exec_primitives pol d (primitives_of d mu)) as [d' es] eqn:Hex.
  simpl. intros (H1 & H2 & H3). repeat split; try done.
  - intros j Hj. eapply exec_primitives_keeps; [done|]. by apply H2.
  - rewrite undo_entries_app, (exec_primitives_undo _ _ _ _ _ Hex). apply H3.
  - intros j Hj.
    rewrite undo_entries_app, (exec_primitives_undo _ _ _ _ _ Hex).
    by apply H3.
Qed.

Lemma create_invariant d0 id c st :
  invariant d0 st → invariant d0 (create id c st).
Proof.
  destruct st as [d lvl log stack rstack max pol fi].
  unfold create; simpl.
  destruct (cells d !! id) as [cl|] eqn:Hid; [done|].
  unfold invariant, unwound; simpl. intros (H1 & H2 & H3).
  split; [done|]. split.
  - intros j Hj. rewrite lookup_insert_is_Some'. right. by apply H2.
  - eapply agree_on_trans; [|exact H3].
    apply agree_on_undo_edits, agree_on_undo_entries. split; [done|].
    intros j Hj. simpl. apply lookup_insert_ne. intros ->.
    apply H2 in Hj. rewrite Hid in Hj. by destruct Hj.
Qed.

Lemma step_invariant d0 st cmd :
  invariant d0 st →
  negb (commits st cmd && history_full st) = true →
  invariant d0 (step st cmd).
Proof.
  intros Hinv Hdrop. pose proof (no_drop_condition st cmd Hdrop) as Hfull.
  destruct cmd as [| |mu|id c]; simpl in *.
  - destruct Hinv as (H1 & H2 & H3). split; [done|]. by split.
  - by apply endUpdate_invariant.
  - destruct (execute_invariant d0 mu st Hinv) as (Hinv' & Hf & Hs & Hm).
    apply endUpdate_invariant; [done|]. unfold mutate in Hfull.
    by rewrite Hf, Hs, Hm.
  - by apply create_invariant.
Qed.

Lemma run_invariant d0 cmds st :
  invariant d0 st → nothing_dropped st cmds = true →
  invariant d0 (run st cmds).
Proof.
  revert st. induction cmds as [|cmd cmds IH]; intros st Hinv Hnd; simpl in *;
    [done|].
  apply andb_true_iff in Hnd as [Hdrop Hnd].
  apply IH; [|done]. by apply step_invariant.
Qed.

(** Enough repetitions of [undo] empty the history. *)
Lemma undo_until_empty_all (stack : list UndoableEdit) st fuel :
  undoStack st = stack →
  (length stack ≤ fuel)%nat →
  undoStack (undo_until_empty fuel st) = []
  ∧ data (undo_until_empty fuel st) = undo_edits stack (data st).
Proof.
  revert st fuel. induction stack as [|edit stack IH]; intros st fuel Hst Hfuel.
  - destruct fuel as [|fuel]; simpl; [done|]. unfold undo. by rewrite Hst.
  - destruct fuel as [|fuel]; simpl in *; [lia|].
    unfold undo. rewrite Hst. apply IH; [done|lia].
Qed.

Lemma undo_entry_absent en d (j : nat) :
  cells d !! j = None → cells (undo_entry en d) !! j = None.
Proof.
  intros Hj. destruct en; simpl; try done;
    rewrite ?lookup_move_child, ?lookup_alter; rewrite ?Hj; try done;
    case_decide; simplify_eq; by rewrite ?Hj.
Qed.

Lemma redo_entry_absent en d (j : nat) :
  cells d !! j = None → cells (redo_entry en d) !! j = None.
Proof.
  intros Hj. destruct en; simpl; try done;
    rewrite ?lookup_move_child, ?lookup_alter; rewrite ?Hj; try done;
    case_decide; simplify_eq; by rewrite ?Hj.
Qed.

Lemma undo_edits_absent (stack : list UndoableEdit) d (j : nat) :
  cells d !! j = None → cells (undo_edits stack d) !! j = None.
Proof.
  revert d. induction stack as [|edit stack IH]; intros d Hj; simpl; [done|].
  apply IH. induction edit as [|en edit IHe]; simpl; [done|].
  by apply undo_entry_absent.
Qed.

Lemma exec_primitives_absent pol ps d d' es (j : nat) :
  exec_primitives pol d ps = (d', es) →
  cells d !! j = None → cells d' !! j = None.
Proof.
  revert d d' es. induction ps as [|p ps IH]; intros d d' es; simpl.
  - by intros [= <- <-].
  - destruct (entry_for pol d p) as [en|]; [|by apply IH].
    destruct (exec_primitives pol (redo_entry en d) ps) as [d1 es1] eqn:Hex.
    intros [= <- <-] Hj. eapply IH; [done|]. by apply redo_entry_absent.
Qed.

Lemma data_endUpdate st : data (endUpdate st) = data st.
Proof.
  destruct st as [d [|[|n]] [|en log] stack rstack max pol fi]; done.
Qed.

(** Without [Create] no cell object appears. *)
Lemma run_absent cmds st (j : nat) :
  (∀ id c, Create id c ∉ cmds) →
  cells (data st) !! j = None → cells (data (run st cmds)) !! j = None.
Proof.
  revert st. induction cmds as [|cmd cmds IH]; intros st Hno Hj; simpl;
    [done|].
  apply IH.
  - intros id c Hin. apply (Hno id c). by right.
  - destruct cmd as [| |mu|id c]; simpl.
    + done.
    + by rewrite data_endUpdate.
    + unfold mutate. rewrite data_endUpdate. unfold execute.
      destruct (exec_primitives _ _ _) as [d' es] eqn:Hex. simpl.
      by eapply exec_primitives_absent.
    + exfalso. apply (Hno id c). by left.
Qed.

Lemma data_eq d d' : root d = root d' → cells d = cells d' → d = d'.
Proof. destruct d, d'; simpl. by intros -> ->. Qed.

Lemma tree_of_agree m m0 :
  closed m0 →
  (∀ j, is_Some (m0 !! j) → m !! j = m0 !! j) →
  ∀ fuel (c : nat), is_Some (m0 !! c) → tree_of fuel m c = tree_of fuel m0 c.
Proof.
  intros Hclosed Hag fuel. induction fuel as [|fuel IH]; intros c Hc; simpl;
    [done|].
  rewrite (Hag c Hc). destruct Hc as [cl Hc]. rewrite Hc. f_equal.
  apply map_ext_in. intros k Hk. apply IH.
  apply (Hclosed c cl k Hc). by apply list_elem_of_In.
Qed.

(** The history and the notifications after one step: nothing happens to
    them, or one edit is notified and pushed. *)
Lemma endUpdate_cases st :
  maxSize (endUpdate st) = maxSize st
  ∧ ((fired (endUpdate st) = fired st
      ∧ undoStack (endUpdate st) = undoStack st)
     ∨ ∃ edit, fired (endUpdate st) = fired st ++ [edit]
         ∧ undoStack (endUpdate st)
           = take (maxSize st) (edit :: undoStack st)).
Proof.
  destruct st as [d [|[|n]] [|en log] stack rstack max pol fi];
    unfold endUpdate, flush; simpl; split; try done; try (by left).
  right. by eexists.
Qed.

Lemma execute_frame mu st :
  fired (execute mu st) = fired st
  ∧ undoStack (execute mu st) = undoStack st
  ∧ maxSize (execute mu st) = maxSize st.
Proof. unfold execute. by destruct (exec_primitives _ _ _). Qed.

Lemma step_cases st cmd :
  maxSize (step st cmd) = maxSize st
  ∧ ((fired (step st cmd) = fired st
      ∧ undoStack (step st cmd) = undoStack st)
     ∨ ∃ edit, fired (step st cmd) = fired st ++ [edit]
         ∧ undoStack (step st cmd)
           = take (maxSize st) (edit :: undoStack st)).
Proof.
  destruct cmd as [| |mu|id c]; simpl.
  - split; [done|]. by left.
  - apply endUpdate_cases.
  - unfold mutate.
    destruct (endUpdate_cases (execute mu (beginUpdate st))) as [Hm Hc].
    destruct (execute_frame mu (beginUpdate st)) as (Hf & Hs & Hx).
    rewrite Hf, Hs, Hx in Hc. rewrite Hx in Hm. simpl in *. by split.
  - unfold create. destruct (cells (data st) !! id); split; try done;
      by left.
Qed.

Lemma run_fired_mono cmds st :
  (length (fired st) ≤ length (fired (run st cmds)))%nat.
Proof.
  revert st. induction cmds as [|cmd cmds IH]; intros st; simpl; [done|].
  etrans; [|apply IH].
  destruct (step_cases st cmd) as [_ [[-> _]|(edit & -> & _)]]; [done|].
  rewrite length_app. lia.
Qed.

(** As long as no more edits are committed than the history can hold, no
    edit is dropped. *)
Lemma few_commits_nothing_dropped cmds st :
  (length (undoStack st) ≤ length (fired st))%nat →
  (length (fired (run st cmds)) ≤ maxSize st)%nat →
  nothing_dropped st cmds = true.
Proof.
  revert st. induction cmds as [|cmd cmds IH]; intros st Hstack Hfew; simpl;
    [done|].
  simpl in Hfew. pose proof (run_fired_mono cmds (step st cmd)) as Hmono.
  destruct (step_cases st cmd) as [Hmax Hcases].
  apply andb_true_iff. split.
  - unfold commits, history_full.
    destruct Hcases as [[Hf _]|(edit & Hf & _)].
    + by rewrite Hf, bool_decide_eq_true_2.
    + rewrite Hf, length_app in *. simpl in *.
      rewrite (bool_decide_eq_false_2 (maxSize st ≤ _)%nat) by lia.
      by rewrite andb_false_r.
  - apply IH; [|by rewrite Hmax].
    destruct Hcases as [[-> ->]|(edit & -> & ->)]; [done|].
    rewrite length_take, length_app. simpl. lia.
Qed.

(** C1, amended: after any sequence of commands that leaves no transaction
    open and commits no more edits than the bounded history can hold, undo
    repeated until the undo history is empty (as many times as the history
    has edits, or more) empties the history and restores the root and every cell of the initial content exactly: parent,
    ordered children, geometry, style, value, flags and terminals.  So the
    cell tree below any initial cell is the initial one, to any depth, and
    when the commands construct no new cell object the whole content is the
    initial one. *)
Theorem undo_until_empty_restores d0 size pol cmds fuel :
  let st := run (initial d0 size pol) cmds in
  updateLevel st = 0%nat →
  (length (fired st) ≤ size)%nat →
  (length (undoStack st) ≤ fuel)%nat →
  let final := undo_until_empty fuel st in
  undoStack final = []
  ∧ undo final = None
  ∧ root (data final) = root d0
  ∧ (∀ c cl, cells d0 !! c = Some cl → cells (data final) !! c = Some cl)
  ∧ (closed (cells d0) →
     ∀ depth c, is_Some (cells d0 !! c) →
       tree_of depth (cells (data final)) c = tree_of depth (cells d0) c)
  ∧ ((∀ id c, Create id c ∉ cmds) → data final = d0).
Proof.
  intros st Hlevel Hfew Hfuel final.
  assert (nothing_dropped (initial d0 size pol) cmds = true) as Hnd.
  { apply few_commits_nothing_dropped; [done|]. exact Hfew. }
  pose proof (run_invariant d0 cmds _ (initial_invariant d0 size pol) Hnd)
    as (Hlog & Hdom & Hroot & Hcells).
  fold st in Hlog, Hdom, Hroot, Hcells.
  destruct (undo_until_empty_all (undoStack st) st fuel eq_refl Hfuel)
    as [Hstack Hdata].
  fold final in Hstack, Hdata.
  unfold unwound in Hroot, Hcells. rewrite (Hlog Hlevel) in Hroot, Hcells.
  simpl in Hroot, Hcells. rewrite <- Hdata in Hroot, Hcells.
  split; [done|]. split; [by unfold undo; rewrite Hstack|].
  split; [done|]. split; [|split].
  - intros c cl Hc. rewrite Hcells; [done|]. by rewrite Hc.
  - intros Hclosed depth c Hc. by apply tree_of_agree.
  - intros Hno. apply data_eq; [done|]. apply map_eq. intros j.
    destruct (cells d0 !! j) as [cl|] eqn:Hj.
    + rewrite Hcells, Hj; [done|]. by rewrite Hj.
    + rewrite Hdata. apply undo_edits_absent. by apply run_absent.
Qed.

End ModelFacts.

Section ModelExamples.
Import GraphModel Examples.

Lemma undo_until_empty_restores_witness :
  let st := run (initial small_model 10 Clamp) small_session in
  let final := undo_until_empty 5 st in
  undoStack final = []
  ∧ undo final = None
  ∧ root (data final) = root small_model
  ∧ (∀ c cl, cells small_model !! c = Some cl →
             cells (data final) !! c = Some cl)
  ∧ (closed (cells small_model) →
     ∀ depth c, is_Some (cells small_model !! c) →
       tree_of depth (cells (data final)) c
       = tree_of depth (cells small_model) c)
  ∧ ((∀ id c, Create id c ∉ small_session) → data final = small_model).
Proof.
  apply (undo_until_empty_restores small_model 10 Clamp small_session 5).
  - vm_compute. reflexivity.
  - vm_compute. lia.
  - vm_compute. lia.
Defined.

(** C1 as stated fails on a bounded history: with room for one edit, two
    committed transactions that rename the layer 1, the child of the root,
    from "" to "b" and then to "c" leave, after undoing until the history is
    empty, the layer named "b" and not "": the cell tree below the root is
    not the initial one. *)
Lemma undo_until_empty_after_drop :
  let st := run (initial small_model 1 Clamp) two_renames in
  let final := undo_until_empty (length (undoStack st)) st in
  updateLevel st = 0%nat
  ∧ length (fired st) = 2%nat
  ∧ undoStack final = []
  ∧ root small_model = Some 0%nat
  ∧ children <$> cells small_model !! 0%nat = Some [1%nat]
  ∧ parent <$> cells small_model !! 1%nat = Some (Some 0%nat)
  ∧ value <$> cells small_model !! 1%nat = Some ""
  ∧ root (data final) = Some 0%nat
  ∧ value <$> cells (data final) !! 1%nat = Some "b"
  ∧ tree_of 2 (cells (data final)) 0 ≠ tree_of 2 (cells small_model) 0
  ∧ data final ≠ small_model.
Proof.
  repeat split; try (vm_compute; reflexivity).
  - intros Heq. vm_compute in Heq. discriminate.
  - intros Heq.
    apply (f_equal (λ d, value <$> cells d !! 1%nat)) in Heq.
    vm_compute in Heq. discriminate.
Qed.

End ModelExamples.

(** * The two-vertices-and-edge examples *)
Section StoryFacts.
Import GraphModel Graph.

Lemma new_graph_empty size pol : empty_model (new_graph size pol).
Proof.
  intros c cl. unfold new_graph; simpl.
  rewrite lookup_insert. case_decide.
  - by intros [= <-].
  - rewrite lookup_singleton. case_decide; [|done]. by intros [= <-].
Qed.

(** C5 as stated fails: in the example of part_000 the vertex A is not
    inserted with the box (0, 0, 80, 30). *)
Lemma anchors_vertex_A_not_at_origin :
  ¬ inserts_two_vertices anchors_story (new_graph 100 Clamp)
      (0, 0, 80, 30)%Z (200, 150, 80, 30)%Z.
Proof.
  intros (g & ins & edit & Hrun & _ & _ & HA & _).
  vm_compute in Hrun. injection Hrun as <- <-.
  vm_compute in HA. discriminate.
Qed.

(** C5, amended: in both examples, on an initially empty model, the vertex
    A "Hello," is inserted with the box (20, 20, 80, 30) and the vertex B
    "World!" with the box (200, 150, 80, 30), both within one transaction. *)
Theorem stories_insert_two_vertices size pol :
  empty_model (new_graph size pol)
  ∧ inserts_two_vertices anchors_story (new_graph size pol)
      (20, 20, 80, 30)%Z (200, 150, 80, 30)%Z
  ∧ inserts_two_vertices dragsource_story (new_graph size pol)
      (20, 20, 80, 30)%Z (200, 150, 80, 30)%Z.
Proof.
  split; [apply new_graph_empty|].
  split.
  - do 3 eexists. split; [vm_compute; reflexivity|].
    repeat split; try (vm_compute; reflexivity).
    + exists 1%nat, 0%nat. set_solver.
    + exists 1%nat, 1%nat. set_solver.
  - do 3 eexists. split; [vm_compute; reflexivity|].
    repeat split; try (vm_compute; reflexivity).
    + exists 1%nat, 0%nat. set_solver.
    + exists 1%nat, 1%nat. set_solver.
Qed.

(** C4 on part_000: the options object of the edge holds the two vertices
    under [position] and [size], not under [source] and [target]; the edge is
    inserted without terminals. *)
Theorem anchors_edge_has_no_terminals size pol :
  ∃ g ins,
    anchors_story (new_graph size pol) = Some (g, ins)
    ∧ terminal_of g true (e1 ins) = None
    ∧ terminal_of g false (e1 ins) = None.
Proof. do 2 eexists. repeat split; vm_compute; reflexivity. Qed.

(** The example of Editing.js names the terminals [source] and [target]:
    there the edge goes from the vertex A to the vertex B. *)
Lemma dragsource_edge_connects_A_to_B size pol :
  ∃ g ins,
    dragsource_story (new_graph size pol) = Some (g, ins)
    ∧ terminal_of g true (e1 ins) = Some (v1 ins)
    ∧ terminal_of g false (e1 ins) = Some (v2 ins).
Proof. do 2 eexists. repeat split; vm_compute; reflexivity. Qed.

End StoryFacts.

(** * The statements at concrete inputs *)
Section Witnesses.
Import mxEvent Examples.

Lemma mxListenerList_never_empty_witness :
  ∃ element',
    calls fresh_node
      [CallAddListener "click" 7%nat; CallAddListener "keydown" 8%nat;
       CallRemoveListener "click" 7%nat; CallRemoveAllListeners;
       CallAddListener "wheel" 9%nat; CallRemoveListener "wheel" 9%nat]
    = Some element'
    ∧ mxListenerList element' ≠ Some [].
Proof.
  apply (mxListenerList_never_empty fresh_node). simpl. discriminate.
Defined.

Lemma removeListener_ignores_name_witness :
  let element' := removeListener twice_registered "keydown" 7%nat in
  mxListenerList element' = Some [MkEntry "keydown" 7%nat]
  ∧ MkEntry "keydown" 7%nat ∈ [MkEntry "keydown" 7%nat]
  ∧ (("keydown", 7%nat) ∉ registered element')
  ∧ (("click", 7%nat) ∈ registered twice_registered →
     ("click", 7%nat) ∈ registered element').
Proof.
  apply (removeListener_ignores_name twice_registered "click" "keydown" 7%nat
           [] [MkEntry "keydown" 7%nat]).
  - reflexivity.
  - constructor.
  - discriminate.
  - constructor.
Defined.

Lemma gesture_listeners_roundtrip_witness :
  let client := MxClient false true in
  let added := addGestureListeners client unrecorded_click
                 (Some 1%nat) (Some 2%nat) (Some 1%nat) in
  let removed := removeGestureListeners client added
                   (Some 1%nat) (Some 2%nat) (Some 1%nat) in
  let pairs :=
    [("mousedown", 1%nat); ("mousemove", 2%nat); ("mouseup", 1%nat);
     ("touchstart", 1%nat); ("touchmove", 2%nat); ("touchend", 1%nat)] in
  mxListenerList added
  = Some [MkEntry "mousedown" 1%nat; MkEntry "mousemove" 2%nat;
          MkEntry "mouseup" 1%nat; MkEntry "touchstart" 1%nat;
          MkEntry "touchmove" 2%nat; MkEntry "touchend" 1%nat]
  ∧ (∀ p, p ∈ registered added ↔ p ∈ registered unrecorded_click ∨ p ∈ pairs)
  ∧ mxListenerList removed = None
  ∧ (∀ p, p ∈ registered removed
          ↔ p ∈ registered unrecorded_click ∧ p ∉ pairs)
  ∧ ∀ entry, entry ∈ aliased_list added →
             (name entry, f entry) ∉ registered removed.
Proof.
  apply (gesture_listeners_roundtrip (MxClient false true) unrecorded_click
           1%nat 2%nat 1%nat).
  reflexivity.
Defined.

Lemma consume_isConsumed_witness :
  ∃ evt', consume mouse_event None (Some false) = Some evt'
    ∧ isConsumed evt' = true.
Proof.
  destruct (proj2 (consume_isConsumed mouse_event None (Some false)))
    as [evt' Hret].
  - simpl. reflexivity.
  - exists evt'. split; [exact Hret|].
    exact (proj1 (consume_isConsumed mouse_event None (Some false)) evt' Hret).
Defined.

Lemma getClient_of_main_event_witness :
  (getClientX touch_event = 5%Z ∧ getClientY touch_event = 7%Z)
  ∧ (getClientX touchend_event = 11%Z ∧ getClientY touchend_event = 13%Z)
  ∧ (getClientX mouse_event = 3%Z ∧ getClientY mouse_event = 4%Z).
Proof.
  split; [|split].
  - apply (proj1 (getClient_of_main_event touch_event)
             (MkTouch 5 7) [MkTouch 50 70]).
    + right. reflexivity.
    + reflexivity.
  - apply (proj1 (proj2 (getClient_of_main_event touchend_event))
             (MkTouch 11 13) []).
    + reflexivity.
    + reflexivity.
  - apply (proj2 (proj2 (getClient_of_main_event mouse_event))).
    + intros [[Hty|Hty] _]; discriminate Hty.
    + intros [Hty _]; discriminate Hty.
Defined.

Lemma redirectMouseEvents_consumed_witness :
  Forall (λ eff, is_default_behaviour eff = false)
    (run_listener (λ _ _, None) (RedirectClosure 0 no_overrides OnDblClick)
       consumed_event)
  ∧ run_listener (λ _ _, None) (RedirectClosure 0 override_down OnDown)
      consumed_event
    = [Invoke 9 consumed_event].
Proof.
  split.
  - apply (proj1 (proj2 (redirectMouseEvents_consumed (MxClient true false) 0
             (MkElement [] None) no_overrides (λ _ _, None) consumed_event))
             OnDblClick).
    + reflexivity.
    + reflexivity.
  - apply (proj2 (proj2 (redirectMouseEvents_consumed (MxClient true false) 0
             (MkElement [] None) override_down (λ _ _, None) consumed_event))
             OnDown 9%nat).
    reflexivity.
Defined.

End Witnesses.

(** * More properties of the listener bookkeeping *)
Section ListenerExtras.
Import mxEvent mxEventRest.
Context {F : Type} `{EqDecision F}.
Implicit Types (element node : Element F) (funct g : F)
  (lst : list (Entry F)) (reg : list (string * F)).

Lemma aliased_list_removeListener element eventName funct :
  aliased_list (removeListener element eventName funct)
  = splice_first funct (aliased_list element).
Proof.
  unfold aliased_list. rewrite mxListenerList_removeListener.
  destruct (mxListenerList element) as [lst|]; [|done].
  case_decide as Hlen; [|done].
  by destruct (splice_first funct lst).
Qed.

Lemma aliased_list_addListener element eventName funct :
  aliased_list (addListener element eventName funct)
  = aliased_list element ++ [MkEntry eventName funct].
Proof. unfold aliased_list, addListener. simpl. by destruct (mxListenerList _). Qed.

(** A field that is not an empty array is determined by its contents. *)
Lemma mxListenerList_aliased element :
  mxListenerList element ≠ Some [] →
  mxListenerList element
  = match aliased_list element with [] => None | l => Some l end.
Proof.
  unfold aliased_list. by destruct (mxListenerList element) as [[|??]|].
Qed.

Lemma splice_first_app_absent funct lst lst' :
  funct ∉ f <$> lst →
  splice_first funct (lst ++ lst') = lst ++ splice_first funct lst'.
Proof.
  induction lst as [|a lst IH]; simpl; [done|]. intros Hno.
  apply not_elem_of_cons in Hno as [Hne Hno].
  rewrite decide_False by done. by rewrite IH.
Qed.

Lemma splice_first_absent funct lst :
  funct ∉ f <$> lst → splice_first funct lst = lst.
Proof.
  intros Hno. pose proof (splice_first_app_absent funct lst [] Hno) as E.
  by rewrite !app_nil_r in E.
Qed.

Lemma elem_of_removeEventListener (n : string) g reg p :
  p ∈ removeEventListener n g reg ↔ p ∈ reg ∧ p ≠ (n, g).
Proof. unfold removeEventListener. rewrite list_elem_of_filter. tauto. Qed.

Lemma removeEventListener_absent (n : string) g reg :
  (n, g) ∉ reg → removeEventListener n g reg = reg.
Proof.
  unfold removeEventListener. induction reg as [|p reg IH]; [done|].
  intros Hno. apply not_elem_of_cons in Hno as [Hne Hno].
  rewrite filter_cons_True by done. by rewrite IH.
Qed.

Lemma removeAllListeners_loop_result fuel element :
  (length (aliased_list element) ≤ fuel)%nat →
  ∃ element', removeAllListeners_loop fuel element = Some element'
    ∧ aliased_list element' = []
    ∧ (mxListenerList element ≠ Some [] → mxListenerList element' = None)
    ∧ ∀ p, p ∈ registered element'
           ↔ p ∈ registered element ∧ p ∉ recorded element.
Proof.
  revert element. induction fuel as [|fuel IH]; intros element Hlen.
  - destruct (aliased_list element) as [|entry lst] eqn:E; simpl in Hlen; [|lia].
    exists element. simpl. rewrite E. split; [done|]. split; [done|]. split.
    + unfold aliased_list in E. destruct (mxListenerList element); by subst.
    + intros p. unfold recorded. rewrite E. simpl.
      split; [intros ?; split; [done|apply not_elem_of_nil]|by intros [? _]].
  - simpl. destruct (aliased_list element) as [|entry lst] eqn:E.
    + exists element. split; [done|]. split; [done|]. split.
      * unfold aliased_list in E. destruct (mxListenerList element); by subst.
      * intros p. unfold recorded. rewrite E. simpl.
        split; [intros ?; split; [done|apply not_elem_of_nil]|by intros [? _]].
    + pose proof (aliased_list_removeListener element (name entry) (f entry))
        as Hrem.
      rewrite E in Hrem. simpl in Hrem. rewrite decide_True in Hrem by done.
      destruct (IH (removeListener element (name entry) (f entry)))
        as (element' & Hrun & Hnil & Hnone & Hreg).
      { rewrite Hrem. simpl in Hlen. lia. }
      exists element'. split; [done|]. split; [done|]. split.
      * intros _. apply Hnone. apply removeListener_not_empty.
      * intros p. rewrite Hreg, registered_removeListener.
        rewrite elem_of_removeEventListener. unfold recorded.
        rewrite Hrem, E. simpl. rewrite not_elem_of_cons. tauto.
Qed.

Lemma removeAllListeners_result element :
  ∃ element', removeAllListeners element = Some element'
    ∧ aliased_list element' = []
    ∧ (mxListenerList element ≠ Some [] → mxListenerList element' = None)
    ∧ ∀ p, p ∈ registered element'
           ↔ p ∈ registered element ∧ p ∉ recorded element.
Proof.
  unfold removeAllListeners.
  destruct (mxListenerList element) as [lst|] eqn:E.
  - destruct (removeAllListeners_loop_result (length lst) element)
      as (element' & Hrun & Hnil & Hnone & Hreg).
    { unfold aliased_list. by rewrite E. }
    exists element'. rewrite E in Hnone. by repeat split; try apply Hreg.
  - exists element. split; [done|]. unfold recorded, aliased_list. rewrite E.
    split; [done|]. split; [done|]. intros p. simpl.
    split; [intros ?; split; [done|apply not_elem_of_nil]|by intros [? _]].
Qed.

(** X1: removeAllListeners returns, leaves [mxListenerList] null, and the
    browser keeps exactly the listeners that were registered but not
    recorded: every recorded listener is removed under its own name. *)
Theorem removeAllListeners_clears element :
  mxListenerList element ≠ Some [] →
  ∃ element', removeAllListeners element = Some element'
    ∧ mxListenerList element' = None
    ∧ ∀ p, p ∈ registered element'
           ↔ p ∈ registered element ∧ p ∉ recorded element.
Proof.
  intros Hinv.
  destruct (removeAllListeners_result element) as (element' & ? & _ & Hn & ?).
  exists element'. split; [done|]. split; [by apply Hn|done].
Qed.

Lemma addListeners_recorded (l : list (string * F)) element :
  (∀ p, p ∈ registered element → p ∈ recorded element) →
  ∀ p, p ∈ registered (addListeners element l)
       → p ∈ recorded (addListeners element l).
Proof.
  revert element. induction l as [|[n g] l IH]; intros element Hsub; simpl;
    [done|].
  apply IH. intros p. unfold recorded. rewrite aliased_list_addListener.
  rewrite fmap_app. simpl. unfold addEventListener.
  case_decide; rewrite ?elem_of_app; intros Hp.
  - left. by apply Hsub.
  - destruct Hp as [Hp|Hp]; [left; by apply Hsub|by right].
Qed.

Lemma addListeners_not_empty (l : list (string * F)) element :
  mxListenerList element ≠ Some [] →
  mxListenerList (addListeners element l) ≠ Some [].
Proof.
  revert element. induction l as [|[n g] l IH]; intros element Hinv; simpl;
    [done|].
  apply IH, addListener_not_empty.
Qed.

(** X2: whatever listeners are added to a node that has none, with
    repetitions or not, removeAllListeners gives the node back as it was:
    nothing recorded and nothing registered. *)
Theorem addListeners_removeAllListeners (l : list (string * F)) :
  removeAllListeners (addListeners (MkElement [] None) l)
  = Some (MkElement [] None).
Proof.
  destruct (removeAllListeners_result (addListeners (MkElement [] None) l))
    as (element' & -> & Hnil & Hnone & Hreg).
  f_equal. destruct element' as [reg lst]. simpl in *. f_equal.
  - destruct reg as [|p reg]; [done|]. exfalso.
    assert (p ∈ p :: reg) as Hp by left.
    apply Hreg in Hp as [Hp Hno]. apply Hno.
    apply addListeners_recorded; [|done]. simpl.
    intros q Hq. by apply elem_of_nil in Hq.
  - by apply Hnone, addListeners_not_empty.
Qed.

Lemma element_eq element element' :
  registered element = registered element' →
  mxListenerList element = mxListenerList element' →
  element = element'.
Proof. destruct element, element'; simpl. by intros -> ->. Qed.

(** X3: adding a listener and removing it again gives the element back as
    it was, provided the function is not recorded on the element yet and
    the listener is not registered yet. *)
Theorem addListener_removeListener_roundtrip element (n : string) g :
  mxListenerList element ≠ Some [] →
  g ∉ f <$> aliased_list element →
  (n, g) ∉ registered element →
  removeListener (addListener element n g) n g = element.
Proof.
  intros Hinv Hnew Hreg. apply element_eq.
  - rewrite registered_removeListener. simpl. unfold addEventListener.
    rewrite decide_False by done. unfold removeEventListener.
    rewrite filter_app. fold (removeEventListener n g (registered element)).
    rewrite removeEventListener_absent by done.
    rewrite filter_cons_False by (by intros Hne; apply Hne).
    by rewrite filter_nil, app_nil_r.
  - rewrite (mxListenerList_aliased (removeListener _ _ _))
      by apply removeListener_not_empty.
    rewrite aliased_list_removeListener, aliased_list_addListener.
    rewrite splice_first_app_absent by done. simpl.
    rewrite decide_True by done. rewrite app_nil_r.
    by rewrite <- mxListenerList_aliased.
Qed.

Lemma splice_first_length funct lst :
  funct ∈ f <$> lst → S (length (splice_first funct lst)) = length lst.
Proof.
  induction lst as [|a lst IH]; simpl.
  - intros Hin. by apply elem_of_nil in Hin.
  - intros Hin. case_decide as Ha; [done|].
    apply elem_of_cons in Hin as [Hin|Hin]; [by subst|].
    simpl. by rewrite IH.
Qed.

Lemma splice_first_keeps_second lst (entry : Entry F) :
  entry ∈ splice_first (f entry) (lst ++ [entry; entry]).
Proof.
  induction lst as [|a lst IH]; simpl.
  - rewrite decide_True by done. by left.
  - case_decide.
    + apply elem_of_app. right. by left.
    + by right.
Qed.

(** X4: addListener records a listener each time it is called, while the
    browser registers it once.  After adding the same listener twice and
    removing it once the browser holds no such listener any more, yet one
    entry for it stays recorded. *)
Theorem addListener_twice_removeListener_once element (n : string) g :
  let element' :=
    removeListener (addListener (addListener element n g) n g) n g in
  ((n, g) ∉ registered element')
  ∧ MkEntry n g ∈ aliased_list element'
  ∧ length (aliased_list element') = S (length (aliased_list element)).
Proof.
  intros element'. subst element'. split; [|split].
  - rewrite registered_removeListener, elem_of_removeEventListener.
    by intros [_ Hne].
  - rewrite aliased_list_removeListener, !aliased_list_addListener.
    rewrite <- (assoc_L (++)). simpl.
    apply (splice_first_keeps_second _ (MkEntry n g)).
  - rewrite aliased_list_removeListener, !aliased_list_addListener.
    apply eq_add_S. rewrite splice_first_length.
    + rewrite !length_app. simpl. lia.
    + rewrite !fmap_app. simpl. apply elem_of_app. right. by left.
Qed.

Lemma addListener_opt_not_empty element (n : string) (g : option F) :
  mxListenerList element ≠ Some [] →
  mxListenerList (addListener_opt element n g) ≠ Some [].
Proof. destruct g; simpl; [intros _; apply addListener_not_empty|done]. Qed.

Lemma removeListener_opt_not_empty element (n : string) (g : option F) :
  mxListenerList element ≠ Some [] →
  mxListenerList (removeListener_opt element n g) ≠ Some [].
Proof. destruct g; simpl; [intros _; apply removeListener_not_empty|done]. Qed.

Lemma gesture_listeners_not_empty client node (s m e : option F) :
  mxListenerList node ≠ Some [] →
  mxListenerList
    (removeGestureListeners client
       (addGestureListeners client node s m e) s m e) ≠ Some [].
Proof.
  intros Hinv. unfold removeGestureListeners, addGestureListeners.
  destruct client as [[] []]; simpl;
    auto 20 using addListener_opt_not_empty, removeListener_opt_not_empty.
Qed.

Ltac settle_functions :=
  repeat match goal with
  | |- context [decide (?a = ?b)] =>
      lazymatch type of a with
      | F => destruct (decide (a = b)); try congruence; simpl
      end
  end.

Lemma gesture_listeners_restore_list client node (s m e : option F) :
  mxListenerList node ≠ Some [] →
  (∀ g, Some g ∈ [s; m; e] → g ∉ f <$> aliased_list node) →
  mxListenerList
    (removeGestureListeners client
       (addGestureListeners client node s m e) s m e)
  = mxListenerList node.
Proof.
  intros Hinv Hnew.
  rewrite (mxListenerList_aliased (removeGestureListeners _ _ _ _ _))
    by by apply gesture_listeners_not_empty.
  rewrite (mxListenerList_aliased node) by done.
  assert (aliased_list
    (removeGestureListeners client
       (addGestureListeners client node s m e) s m e) = aliased_list node)
    as ->; [|done].
  assert (∀ g, s = Some g → g ∉ f <$> aliased_list node) as Hs.
  { intros g ->. apply Hnew. by left. }
  assert (∀ g, m = Some g → g ∉ f <$> aliased_list node) as Hm.
  { intros g ->. apply Hnew. right. by left. }
  assert (∀ g, e = Some g → g ∉ f <$> aliased_list node) as He.
  { intros g ->. apply Hnew. right. right. by left. }
  clear Hnew Hinv.
  unfold removeGestureListeners, addGestureListeners.
  destruct s as [s|], m as [m|], e as [e|];
    try specialize (Hs _ eq_refl); try specialize (Hm _ eq_refl);
    try specialize (He _ eq_refl);
    destruct client as [[] []]; simpl; try done.
  all: rewrite ?aliased_list_removeListener, ?aliased_list_addListener.
  all: rewrite <- ?(assoc_L (++)); simpl.
  all: try destruct (decide (s = m)); try destruct (decide (s = e));
    try destruct (decide (m = e)); simplify_eq.
  all: repeat (rewrite splice_first_app_absent by done; simpl;
               settle_functions).
  all: by rewrite app_nil_r.
Qed.

Lemma registered_addListener element (n : string) g :
  registered (addListener element n g)
  = addEventListener n g (registered element).
Proof. done. Qed.

Lemma addEventListener_new (n : string) g reg :
  (n, g) ∉ reg → addEventListener n g reg = reg ++ [(n, g)].
Proof. intros Hno. unfold addEventListener. by rewrite decide_False. Qed.

Lemma removeEventListener_app_absent (n : string) g reg l :
  (n, g) ∉ reg →
  removeEventListener n g (reg ++ l) = reg ++ removeEventListener n g l.
Proof.
  intros Hno. unfold removeEventListener at 1. rewrite filter_app.
  fold (removeEventListener n g reg). by rewrite removeEventListener_absent.
Qed.

Lemma removeEventListener_cons_eq (n : string) g l :
  removeEventListener n g ((n, g) :: l) = removeEventListener n g l.
Proof.
  unfold removeEventListener.
  by rewrite filter_cons_False by (by intros Hne; apply Hne).
Qed.

Lemma removeEventListener_cons_ne (n : string) g p l :
  p ≠ (n, g) →
  removeEventListener n g (p :: l) = p :: removeEventListener n g l.
Proof. intros Hne. unfold removeEventListener. by rewrite filter_cons_True. Qed.

Ltac register_all Hs Hm He :=
  repeat match goal with
  | |- context [addEventListener ?n ?g ?r] =>
      lazymatch r with
      | context [addEventListener] => fail
      | _ =>
          rewrite (addEventListener_new n g r)
            by (rewrite ?not_elem_of_app, ?not_elem_of_cons;
                repeat split;
                first [ apply not_elem_of_nil | apply Hs | apply Hm
                      | apply He | by intros [=] ])
      end
  end.

Ltac unregister_all :=
  repeat first
    [ rewrite removeEventListener_app_absent by done
    | rewrite removeEventListener_cons_eq
    | rewrite removeEventListener_cons_ne by (by intros [=])
    | rewrite (right_id_L [] (++)) ];
  unfold removeEventListener; rewrite ?filter_nil, ?(right_id_L [] (++)).

Lemma gesture_listeners_restore_registered client node (s m e : option F) :
  (∀ g n, Some g ∈ [s; m; e] → (n, g) ∉ registered node) →
  registered (removeGestureListeners client
       (addGestureListeners client node s m e) s m e)
  = registered node.
Proof.
  intros Hreg.
  assert (∀ g n, s = Some g → (n, g) ∉ registered node) as Hs.
  { intros g n ->. apply Hreg. by left. }
  assert (∀ g n, m = Some g → (n, g) ∉ registered node) as Hm.
  { intros g n ->. apply Hreg. right. by left. }
  assert (∀ g n, e = Some g → (n, g) ∉ registered node) as He.
  { intros g n ->. apply Hreg. right. right. by left. }
  clear Hreg.
  unfold removeGestureListeners, addGestureListeners.
  destruct s as [s|], m as [m|], e as [e|];
    try (pose proof (λ n, Hs _ n eq_refl) as Hs'; clear Hs);
    try (pose proof (λ n, Hm _ n eq_refl) as Hm'; clear Hm);
    try (pose proof (λ n, He _ n eq_refl) as He'; clear He);
    destruct client as [[] []]; simpl; try done.
  all: rewrite ?registered_removeListener, ?registered_addListener.
  all: register_all Hs' Hm' He'.
  all: rewrite <- ?(assoc_L (++)); simpl.
  all: by unregister_all.
Qed.

(** X5: on a node that records none of the given functions yet,
    addGestureListeners followed by removeGestureListeners with the same
    arguments, some of which may be null and some equal, leaves
    [mxListenerList] as it was; when none of the functions is registered on
    the node either, the node is as it was. *)
Theorem gesture_listeners_restore client node (s m e : option F) :
  mxListenerList node ≠ Some [] →
  (∀ g, Some g ∈ [s; m; e] → g ∉ f <$> aliased_list node) →
  let node' := removeGestureListeners client
                 (addGestureListeners client node s m e) s m e in
  mxListenerList node' = mxListenerList node
  ∧ ((∀ g n, Some g ∈ [s; m; e] → (n, g) ∉ registered node) → node' = node).
Proof.
  intros Hinv Hnew node'. subst node'.
  split; [by apply gesture_listeners_restore_list|].
  intros Hreg. apply element_eq.
  - by apply gesture_listeners_restore_registered.
  - by apply gesture_listeners_restore_list.
Qed.

Lemma Node_ind_nested (P : Node F → Prop) :
  (∀ element, P (MkNode element None)) →
  (∀ element l, Forall P l → P (MkNode element (Some l))) →
  ∀ n, P n.
Proof.
  intros Hleaf Hnode. fix IH 1. intros [element [l|]]; [|apply Hleaf].
  apply Hnode. induction l as [|k l IHl]; constructor; [apply IH|apply IHl].
Qed.

Lemma release_node_elements (n : Node F) :
  Forall2 released (elements n) (elements (release_node n)).
Proof.
  induction n as [element|element l IH] using Node_ind_nested; simpl.
  - destruct (removeAllListeners_result element) as (element' & -> & Hrel).
    simpl. constructor; [done|constructor].
  - destruct (removeAllListeners_result element) as (element' & -> & Hrel).
    simpl. constructor; [done|].
    induction IH as [|k l Hk _ IHl]; simpl; [constructor|].
    by apply Forall2_app.
Qed.

(** X6: release(null) does nothing.  On a node, release visits the node
    and all its descendants, in document order, and leaves each of them
    without recorded listeners ([mxListenerList] null) and with exactly the
    registered listeners that were not recorded. *)
Theorem release_clears (n : Node F) :
  release (F:=F) None = None
  ∧ ∃ n', release (Some n) = Some n'
      ∧ Forall2
          (λ element element',
             aliased_list element' = []
             ∧ (mxListenerList element ≠ Some [] →
                mxListenerList element' = None)
             ∧ ∀ p, p ∈ registered element'
                    ↔ p ∈ registered element ∧ p ∉ recorded element)
          (elements n) (elements n').
Proof.
  split; [done|]. exists (release_node n). split; [done|].
  apply release_node_elements.
Qed.

End ListenerExtras.

(** * The device and button tests *)
Section InputFacts.
Import mxEvent mxEventRest.
Implicit Types (evt : InputEvent).

(** A string in which [sub] is found at position 0 starts with the first
    character of [sub]. *)
Lemma indexOf_zero_head (c : Ascii.ascii) (sub s : string) :
  indexOf s (String c sub) = 0%Z → ∃ s', s = String c s'.
Proof.
  unfold indexOf. destruct s as [|c' s']; simpl; [done|].
  destruct (Ascii.ascii_dec c c') as [->|Hne]; [by eexists|].
  destruct (String.index 0 (String c sub) s'); intros Hz; lia.
Qed.

Lemma indexOf_heads_differ (sub1 sub2 s : string) :
  match sub1, sub2 with
  | String c1 _, String c2 _ => c1 ≠ c2
  | _, _ => False
  end →
  indexOf s sub1 = 0%Z → indexOf s sub2 ≠ 0%Z.
Proof.
  destruct sub1 as [|c1 sub1], sub2 as [|c2 sub2]; try done.
  intros Hne H1 H2.
  apply indexOf_zero_head in H1 as [s1 ->].
  apply indexOf_zero_head in H2 as [s2 [= E _]]. by apply Hne.
Qed.

(** X7: when the numbers an event carries for the MSPointer device kinds
    are pairwise different, the event is of at most one kind: no event is a
    touch and a pen event, a touch and a mouse event, or a pen and a mouse
    event. *)
Theorem device_kinds_exclusive evt :
  (∀ k, MSPOINTER_TYPE_TOUCH evt = Some k → MSPOINTER_TYPE_PEN evt ≠ Some k) →
  (∀ k, MSPOINTER_TYPE_TOUCH evt = Some k → MSPOINTER_TYPE_MOUSE evt ≠ Some k) →
  (∀ k, MSPOINTER_TYPE_PEN evt = Some k → MSPOINTER_TYPE_MOUSE evt ≠ Some k) →
  isTouchEvent evt && isPenEvent evt = false
  ∧ isTouchEvent evt && isMouseEvent evt = false
  ∧ isPenEvent evt && isMouseEvent evt = false.
Proof.
  intros Htp Htm Hpm. unfold isTouchEvent, isPenEvent, isMouseEvent.
  destruct (pointerType evt) as [[s|n]|]; simpl.
  - repeat split; repeat case_bool_decide; simplify_eq; done.
  - destruct (MSPOINTER_TYPE_TOUCH evt) as [a|], (MSPOINTER_TYPE_PEN evt) as [b|],
      (MSPOINTER_TYPE_MOUSE evt) as [c|]; simpl;
      repeat split; repeat case_bool_decide; simplify_eq; try done.
    + by destruct (Htp _ eq_refl).
    + by destruct (Htm _ eq_refl).
    + by destruct (Hpm _ eq_refl).
    + by destruct (Htp _ eq_refl).
    + by destruct (Htm _ eq_refl).
    + by destruct (Hpm _ eq_refl).
  - destruct (mozInputSource evt) as [src|].
    + repeat split; repeat case_bool_decide; simplify_eq; done.
    + repeat split; repeat case_bool_decide; try done; exfalso.
      * by eapply (indexOf_heads_differ "touch" "pen"); [|done..].
      * by eapply (indexOf_heads_differ "touch" "mouse"); [|done..].
      * by eapply (indexOf_heads_differ "pen" "mouse"); [|done..].
Qed.

(** X8: a multi-touch event has at least two touches; when it carries
    neither [pointerType] nor [mozInputSource] it is a touch event and
    neither a pen nor a mouse event. *)
Theorem isMultiTouchEvent_touch evt :
  isMultiTouchEvent evt = true →
  (∃ t1 t2 ts, evt_touches (dom evt) = Some (t1 :: t2 :: ts))
  ∧ (pointerType evt = None → mozInputSource evt = None →
     isTouchEvent evt = true ∧ isPenEvent evt = false
     ∧ isMouseEvent evt = false).
Proof.
  unfold isMultiTouchEvent. intros [Hty Hto]%andb_true_iff.
  apply bool_decide_eq_true in Hty. split.
  - destruct (evt_touches (dom evt)) as [[|t1 [|t2 ts]]|]; simpl in Hto;
      try done. by eexists _, _, _.
  - intros Hp Hm. unfold isTouchEvent, isPenEvent, isMouseEvent.
    rewrite Hp, Hm. rewrite bool_decide_eq_true_2 by done.
    split; [done|]. split; apply bool_decide_eq_false_2.
    + by apply (indexOf_heads_differ "touch" "pen").
    + by apply (indexOf_heads_differ "touch" "mouse").
Qed.

(** X9: an event never has both the middle and the right button; and
    unless it is a mousedown or mousemove event carrying [buttons], the left
    button excludes the other two. *)
Theorem mouse_buttons_exclusive evt :
  isMiddleMouseButton evt && isRightMouseButton evt = false
  ∧ (¬ (is_Some (buttons evt)
        ∧ (evt_type (dom evt) = "mousedown"
           ∨ evt_type (dom evt) = "mousemove")) →
     isLeftMouseButton evt && isMiddleMouseButton evt = false
     ∧ isLeftMouseButton evt && isRightMouseButton evt = false).
Proof.
  unfold isLeftMouseButton, isMiddleMouseButton, isRightMouseButton.
  split.
  - destruct (which evt); repeat case_bool_decide; simplify_eq; done.
  - intros Hno. destruct (buttons evt) as [b|].
    + rewrite bool_decide_eq_false_2 by (intros Hty; apply Hno; eauto).
      destruct (which evt); split; repeat case_bool_decide; simplify_eq; done.
    + destruct (which evt); split; repeat case_bool_decide; simplify_eq; done.
Qed.

(** X10: off the Mac a popup trigger is a right button press.  A press of
    the left button (on an event that is not a mousedown or mousemove
    carrying [buttons]) is a popup trigger only on a Mac with the control
    key down and shift, meta and alt up. *)
Theorem isPopupTrigger_left_button IS_MAC evt :
  isPopupTrigger false evt = isRightMouseButton evt
  ∧ (¬ (is_Some (buttons evt)
        ∧ (evt_type (dom evt) = "mousedown"
           ∨ evt_type (dom evt) = "mousemove")) →
     isLeftMouseButton evt = true →
     isPopupTrigger IS_MAC evt = true →
     IS_MAC = true ∧ ctrlKey evt = true ∧ shiftKey evt = false
     ∧ metaKey evt = false ∧ altKey evt = false).
Proof.
  split.
  - unfold isPopupTrigger. simpl. by rewrite orb_false_r.
  - intros Hno Hleft Hpop.
    assert (isRightMouseButton evt = false) as Hright.
    { revert Hleft. unfold isLeftMouseButton, isRightMouseButton.
      destruct (buttons evt) as [b|].
      - rewrite bool_decide_eq_false_2 by (intros Hty; apply Hno; eauto).
        destruct (which evt); repeat case_bool_decide; simplify_eq; done.
      - destruct (which evt); repeat case_bool_decide; simplify_eq; done. }
    unfold isPopupTrigger in Hpop. rewrite Hright in Hpop. simpl in Hpop.
    destruct IS_MAC, (ctrlKey evt), (shiftKey evt), (metaKey evt),
      (altKey evt); simpl in Hpop; done.
Qed.

End InputFacts.

(** * consume, the key handler and the Editing example *)
Section ConsumeFacts.
Import mxEvent.

(** X11: consume throws exactly when it is to prevent the default and to
    stop the propagation of an event that has preventDefault but no
    stopPropagation.  Otherwise it calls stopPropagation (if asked) and then
    preventDefault on an event that has preventDefault, calls nothing on an
    event that has not, sets cancelBubble only on such an event when asked
    to stop the propagation, and sets returnValue to false only there. *)
Theorem consume_effects evt (preventDefault stopPropagation : option bool) :
  (consume evt preventDefault stopPropagation = None
   ↔ default true preventDefault = true
     ∧ default true stopPropagation = true
     ∧ evt_preventDefault evt = true ∧ evt_stopPropagation evt = false)
  ∧ ∀ evt', consume evt preventDefault stopPropagation = Some evt' →
      evt_invoked evt'
      = evt_invoked evt
        ++ (if default true preventDefault && evt_preventDefault evt
            then (if default true stopPropagation then ["stopPropagation"]
                  else []) ++ ["preventDefault"]
            else [])
      ∧ evt_cancelBubble evt'
        = (if default true preventDefault && negb (evt_preventDefault evt)
              && default true stopPropagation
           then Some true else evt_cancelBubble evt)
      ∧ evt_returnValue evt'
        = (if evt_preventDefault evt then evt_returnValue evt
           else Some false).
Proof.
  unfold consume, invoke_stopPropagation.
  destruct preventDefault as [[]|], stopPropagation as [[]|],
    (evt_preventDefault evt) eqn:Hp, (evt_stopPropagation evt) eqn:Hs; simpl.
  all: split; [split; [try done; intros [=]|intros (?&?&?&?); done]|].
  all: intros evt' [= <-]; simpl; rewrite ?Hp; simpl;
    by rewrite ?app_nil_r, <- ?(assoc_L (++)).
Qed.

End ConsumeFacts.

Section KeyHandlerFacts.
Import mxDefaultKeyHandler.

Lemma bindActions_calls this calls bs :
  handler this = Some calls →
  bindActions this bs
  = Some (MkInstance (editor this) (Some (calls ++ map binding_call bs))).
Proof.
  revert this calls. induction bs as [|[[code action] control] bs IH];
    intros this calls Hh; simpl.
  - rewrite app_nil_r. destruct this; simpl in *. by subst.
  - unfold bindAction, binding_call at 1. rewrite Hh. simpl.
    destruct (default false control); simpl;
      erewrite IH by done; simpl; by rewrite <- (assoc_L (++)).
Qed.

(** X12: on an instance constructed for an editor, any sequence of
    bindAction calls succeeds, and the key handler that destroy then drops
    was constructed for the editor's graph, had its escape replaced, and
    received the bindings in order, each as a control key binding when
    [control] is true and as a plain key binding otherwise. *)
Theorem bindActions_destroy ed bs :
  ∃ this,
    bindActions (constructor (Some ed)) bs = Some this
    ∧ destroy this
      = Some (MkInstance (Some ed) None,
              [Construct (editor_graph ed); ReplaceEscape]
              ++ map binding_call bs ++ [Destroy]).
Proof.
  eexists. split.
  - by apply bindActions_calls.
  - unfold destroy; simpl. by rewrite <- ?(assoc_L (++)).
Qed.

(** X13: an instance constructed without editor has no key handler, and
    destroy drops the key handler but keeps the editor; on such instances
    every bindAction and every destroy throws. *)
Theorem no_handler_after_destroy this this' calls :
  handler (constructor None) = None
  ∧ (destroy this = Some (this', calls) →
     editor this' = editor this ∧ handler this' = None)
  ∧ (handler this = None →
     destroy this = None
     ∧ ∀ code action control, bindAction this code action control = None).
Proof.
  split; [done|]. split.
  - unfold destroy. destruct (handler this); simpl; [|done].
    by intros [= <- _].
  - intros Hh. unfold destroy, bindAction. rewrite Hh. split; [done|].
    intros code action control. by destruct (default false control).
Qed.

End KeyHandlerFacts.

Section EditingFacts.
Import mxEvent Editing.
Variable number : Type.
Variable convertPoint : Z → Z → number * number.
Variable minus : number → number → number.
Variable above_half : number → number → bool.

Local Abbreviation fieldOf := (__getFieldnameForEvent number convertPoint minus above_half).
Local Abbreviation editingValue := (getEditingValue number convertPoint minus above_half).

Lemma fieldname_first_or_second state evt :
  fieldOf state evt = "first" ∨ fieldOf state evt = "second".
Proof.
  unfold __getFieldnameForEvent. destruct evt; [|by left].
  destruct state; [|by left]. destruct (above_half _ _); [by right|by left].
Qed.

(** X14: when getEditingValue has returned for an event, labelChanged with
    that event as trigger hands mxGraph a value in which the field that was
    shown, [first] or [second], holds the new text and every other field is
    as before; on a cell holding that value, getEditingValue for the same
    event returns the new text. *)
Theorem labelChanged_getEditingValue value state evt old evt' newValue :
  editingValue value state (Some evt) = Some (old, evt') →
  ∃ name value',
    fieldname evt' = Some name
    ∧ (name = "first" ∨ name = "second")
    ∧ old = field_or_empty value name
    ∧ labelChanged value newValue (Some evt') = Some value'
    ∧ value' !! name = Some newValue
    ∧ (∀ k, k ≠ name → value' !! k = value !! k)
    ∧ editingValue value' state (Some evt') = Some (newValue, evt').
Proof.
  unfold getEditingValue. intros [= <- <-].
  exists (fieldOf state (Some evt)), (<[fieldOf state (Some evt) := newValue]> value).
  split; [done|]. split; [apply fieldname_first_or_second|].
  split; [done|]. split; [done|]. split; [apply lookup_insert_eq|].
  split; [intros k Hk; by apply lookup_insert_ne|].
  simpl. f_equal. f_equal.
  unfold field_or_empty. by rewrite lookup_insert_eq.
Qed.

(** X15: without an event the field is [first], and so it is when the cell
    has no state; but getEditingValue throws without an event, and
    labelChanged does not call mxGraph when the trigger is missing or
    carries no [fieldname], so that the new text is dropped. *)
Theorem editing_without_trigger value state evt newValue :
  fieldOf state None = "first"
  ∧ fieldOf None evt = "first"
  ∧ editingValue value state None = None
  ∧ labelChanged value newValue None = None
  ∧ (∀ t, fieldname t = None → labelChanged value newValue (Some t) = None).
Proof.
  repeat split; try done.
  - unfold __getFieldnameForEvent. by destruct evt.
  - intros t Ht. unfold labelChanged. by rewrite Ht.
Qed.

End EditingFacts.

(** * The further statements at concrete inputs *)
Section MoreWitnesses.
Import mxEvent mxEventRest Examples MoreExamples.

Lemma removeAllListeners_clears_witness :
  ∃ element', removeAllListeners half_recorded = Some element'
    ∧ mxListenerList element' = None
    ∧ ∀ p, p ∈ registered element'
           ↔ p ∈ registered half_recorded ∧ p ∉ recorded half_recorded.
Proof. apply (removeAllListeners_clears half_recorded). simpl. discriminate. Defined.

Lemma addListener_removeListener_roundtrip_witness :
  removeListener (addListener half_recorded "wheel" 9%nat) "wheel" 9%nat
  = half_recorded.
Proof.
  apply (addListener_removeListener_roundtrip half_recorded "wheel" 9%nat).
  - simpl. discriminate.
  - simpl. intros Hin. apply list_elem_of_singleton in Hin. discriminate.
  - simpl. intros Hin. apply elem_of_cons in Hin as [Hin|Hin]; [discriminate|].
    apply list_elem_of_singleton in Hin. discriminate.
Defined.

Lemma gesture_listeners_restore_witness :
  let node' := removeGestureListeners (MxClient false true)
                 (addGestureListeners (MxClient false true) half_recorded
                    (Some 1%nat) None (Some 1%nat))
                 (Some 1%nat) None (Some 1%nat) in
  mxListenerList node' = mxListenerList half_recorded
  ∧ ((∀ g n, Some g ∈ [Some 1%nat; None; Some 1%nat] →
             (n, g) ∉ registered half_recorded) →
     node' = half_recorded).
Proof.
  apply (gesture_listeners_restore (MxClient false true) half_recorded
           (Some 1%nat) None (Some 1%nat)).
  - simpl. discriminate.
  - intros g Hg. simpl. intros Hin. apply list_elem_of_singleton in Hin.
    subst g. apply elem_of_cons in Hg as [Hg|Hg]; [discriminate|].
    apply elem_of_cons in Hg as [Hg|Hg]; [discriminate|].
    apply list_elem_of_singleton in Hg. discriminate.
Defined.

Lemma device_kinds_exclusive_witness :
  isTouchEvent mspointer_event && isPenEvent mspointer_event = false
  ∧ isTouchEvent mspointer_event && isMouseEvent mspointer_event = false
  ∧ isPenEvent mspointer_event && isMouseEvent mspointer_event = false.
Proof.
  apply (device_kinds_exclusive mspointer_event); simpl;
    intros k [= <-]; discriminate.
Defined.

Lemma isMultiTouchEvent_touch_witness :
  (∃ t1 t2 ts, evt_touches (dom two_finger_event) = Some (t1 :: t2 :: ts))
  ∧ (pointerType two_finger_event = None →
     mozInputSource two_finger_event = None →
     isTouchEvent two_finger_event = true
     ∧ isPenEvent two_finger_event = false
     ∧ isMouseEvent two_finger_event = false).
Proof. apply (isMultiTouchEvent_touch two_finger_event). reflexivity. Defined.

Lemma mouse_buttons_exclusive_witness :
  isLeftMouseButton control_click && isMiddleMouseButton control_click = false
  ∧ isLeftMouseButton control_click && isRightMouseButton control_click = false.
Proof.
  apply (proj2 (mouse_buttons_exclusive control_click)).
  simpl. intros [_ [Hty|Hty]]; discriminate Hty.
Defined.

Lemma isPopupTrigger_left_button_witness :
  true = true ∧ ctrlKey control_click = true ∧ shiftKey control_click = false
  ∧ metaKey control_click = false ∧ altKey control_click = false.
Proof.
  apply (proj2 (isPopupTrigger_left_button true control_click)).
  - simpl. intros [_ [Hty|Hty]]; discriminate Hty.
  - reflexivity.
  - reflexivity.
Defined.

Lemma consume_effects_witness :
  ∃ evt', consume legacy_event None None = Some evt'
    ∧ evt_invoked evt' = []
    ∧ evt_cancelBubble evt' = Some true
    ∧ evt_returnValue evt' = Some false.
Proof.
  eexists. split; [reflexivity|].
  apply (proj2 (consume_effects legacy_event None None)). reflexivity.
Defined.

Lemma no_handler_after_destroy_witness :
  mxDefaultKeyHandler.destroy
    (mxDefaultKeyHandler.MkInstance
       (Some (mxDefaultKeyHandler.MkEditor 1 2)) None) = None
  ∧ mxDefaultKeyHandler.bindAction
      (mxDefaultKeyHandler.MkInstance
         (Some (mxDefaultKeyHandler.MkEditor 1 2)) None)
      46 "delete" (Some true) = None.
Proof.
  pose proof (proj2 (proj2 (no_handler_after_destroy
    (mxDefaultKeyHandler.MkInstance
       (Some (mxDefaultKeyHandler.MkEditor 1 2)) None)
    (mxDefaultKeyHandler.MkInstance None None) [])) eq_refl) as [Hd Hb].
  split; [exact Hd|apply Hb].
Defined.

Lemma labelChanged_getEditingValue_witness :
  ∃ name value',
    Editing.fieldname (Editing.MkTrigger mouse_event (Some "second"))
    = Some name
    ∧ (name = "first" ∨ name = "second")
    ∧ "Second value" = Editing.field_or_empty user_object name
    ∧ Editing.labelChanged user_object "new text"
        (Some (Editing.MkTrigger mouse_event (Some "second"))) = Some value'
    ∧ value' !! name = Some "new text"
    ∧ (∀ k, k ≠ name → value' !! k = user_object !! k)
    ∧ Editing.getEditingValue Z whole_point Z.sub whole_above_half value'
        (Some low_state)
        (Some (Editing.MkTrigger mouse_event (Some "second")))
      = Some ("new text", Editing.MkTrigger mouse_event (Some "second")).
Proof.
  apply (labelChanged_getEditingValue Z whole_point Z.sub whole_above_half
           user_object (Some low_state) click_low).
  reflexivity.
Defined.

End MoreWitnesses.
